(** * Choy Apparel front end: cart store, merge, sync and session guard

    A shallow embedding of the cart reconciliation code of the React front
    end (CartContext.tsx, AuthContext.tsx, services/api.ts, useCheckout.tsx)
    and the properties of it that were checked.

    Conventions.
    - A JavaScript [number] holding a quantity or a millisecond clock is a [Z].
    - An array is a [list]; a JS [Map] is an association list kept in
      insertion order, as [Map.prototype.entries] enumerates it.
    - A promise that settles is a [Result]: [Ok v] when it fulfils with [v],
      [Err m] when it rejects with an [Error] whose [message] is [m].
    - Component state, refs and [localStorage] are fields of one [World];
      an [async] function runs as one step of a state monad over it, reads
      the state last committed, and logs what it shows the outside (toasts,
      requests, navigations, console lines) in order.
    - The backend is a parameter: a function from the requests issued so
      far and the request at hand to what [fetch] settles to. *)

From Stdlib Require Import ZArith List String Bool Lia.
Import ListNotations.
Open Scope string_scope.
Open Scope Z_scope.

(** ** Data model (CartContext.tsx, lines 8-11) *)

Record Product := mkProduct {
  id : string;
  name : string;
  price : Z
}.

Record CartItem := mkCartItem {
  product : Product;
  quantity : Z
}.

Definition Cart := list CartItem.

(** [item.product.id] *)
Definition pid (item : CartItem) : string := id (product item).

Definition ids (c : Cart) : list string := map pid c.

(** [{ ...item, quantity: q }] *)
Definition withQuantity (item : CartItem) (q : Z) : CartItem :=
  {| product := product item; quantity := q |}.

(** [arr.find(item => item.product.id === productId)] *)
Definition findById (productId : string) (arr : Cart) : option CartItem :=
  find (fun item => pid item =? productId)%string arr.

Definition quantityOf (c : Cart) (productId : string) : option Z :=
  option_map quantity (findById productId c).

(** ** Notifications ([toast] of sonner) *)

Inductive Toast :=
| toast_success (message : string)
| toast_error (message : string).

(** ** CartStore updaters (CartContext.tsx, lines 218-267)

    Each operation hands [setItems] an updater from the current array to the
    next one; the toast raised inside the updater is returned with it. *)

Definition addItem (product0 : Product) (quantity0 : Z) (currentItems : Cart)
  : Cart * list Toast :=
  match findById (id product0) currentItems with
  | Some _ =>
      let updatedItems :=
        map (fun item =>
               if (pid item =? id product0)%string
               then withQuantity item (quantity item + quantity0)
               else item) currentItems in
      (updatedItems,
       [toast_success ("Updated " ++ name product0 ++ " quantity in cart")])
  | None =>
      ((currentItems ++ [{| product := product0; quantity := quantity0 |}])%list,
       [toast_success ("Added " ++ name product0 ++ " to cart")])
  end.

Definition removeItem (productId : string) (currentItems : Cart)
  : Cart * list Toast :=
  (filter (fun item => negb (pid item =? productId)%string) currentItems,
   match findById productId currentItems with
   | Some item =>
       [toast_success ("Removed " ++ name (product item) ++ " from cart")]
   | None => []
   end).

Definition updateQuantity (productId : string) (quantity0 : Z)
  (currentItems : Cart) : Cart * list Toast :=
  if quantity0 <=? 0
  then removeItem productId currentItems
  else (map (fun item =>
               if (pid item =? productId)%string
               then withQuantity item quantity0
               else item) currentItems,
        []).

Definition clearCart (currentItems : Cart) : Cart * list Toast :=
  ([], [toast_success "Cart cleared"]).

(** The public mutations of the store, and the store content they lead to. *)
Inductive CartOp :=
| AddItem (product0 : Product) (quantity0 : Z)
| RemoveItem (productId : string)
| UpdateQuantity (productId : string) (quantity0 : Z)
| ClearCart.

Definition updater (op : CartOp) : Cart -> Cart * list Toast :=
  match op with
  | AddItem p q => addItem p q
  | RemoveItem k => removeItem k
  | UpdateQuantity k q => updateQuantity k q
  | ClearCart => clearCart
  end.

Definition perform (c : Cart) (op : CartOp) : Cart := fst (updater op c).

(** The store starts as [useState<CartItem[]>([])]. *)
Definition run_ops (ops : list CartOp) : Cart := fold_left perform ops [].

Definition reachable (c : Cart) : Prop := exists ops, run_ops ops = c.

(** The invariant of the data model: quantities at least one, ids unique. *)
Definition well_formed (c : Cart) : Prop :=
  Forall (fun item => 1 <= quantity item) c /\ NoDup (ids c).

(** ** JS [Map<string, CartItem>] *)

Definition JsMap := list (string * CartItem).

Fixpoint Map_set (m : JsMap) (k : string) (v : CartItem) : JsMap :=
  match m with
  | [] => [(k, v)]
  | (k', v') :: rest =>
      if (k' =? k)%string then (k, v) :: rest else (k', v') :: Map_set rest k v
  end.

Fixpoint Map_get (m : JsMap) (k : string) : option CartItem :=
  match m with
  | [] => None
  | (k', v') :: rest => if (k' =? k)%string then Some v' else Map_get rest k
  end.

Definition Map_has (m : JsMap) (k : string) : bool :=
  match Map_get m k with Some _ => true | None => false end.

Definition Map_values (m : JsMap) : list CartItem := map snd m.

Definition Map_keys (m : JsMap) : list string := map fst m.

(** ** mergeCarts (CartContext.tsx, lines 41-52) *)

(** The callback of [cartB.forEach] (lines 44-50). The entry found under
    the id is a copy made by this function, and [+=] updates that copy. *)
Definition absorb (mergedMap : JsMap) (item : CartItem) : JsMap :=
  match Map_get mergedMap (pid item) with
  | Some existing =>
      Map_set mergedMap (pid item)
        (withQuantity existing (quantity existing + quantity item))
  | None => Map_set mergedMap (pid item) item
  end.

Definition mergeCarts (cartA cartB : Cart) : Cart :=
  let mergedMap :=
    fold_left (fun m item => Map_set m (pid item) item) cartA [] in
  let mergedMap := fold_left absorb cartB mergedMap in
  Map_values mergedMap.

(** ** Settled promises and thrown errors *)

Inductive Result (A : Type) :=
| Ok (value : A)
| Err (message : string).
Arguments Ok {A} value.
Arguments Err {A} message.

(** [s.includes(sub)] *)
Definition includes (s sub : string) : bool :=
  match String.index 0 sub s with Some _ => true | None => false end.

(** A JS string is truthy unless it is empty. *)
Definition nonempty (s : string) : bool := negb (s =? "")%string.

Definition truthy (v : option string) : bool :=
  match v with Some s => nonempty s | None => false end.

(** ** The HTTP collaborator (services/api.ts) *)

Inductive PaymentMethod := paypal | cod.

Record Address := mkAddress {
  firstName : string;
  lastName : string;
  address : string;
  city : string;
  state : string;
  zip : string;
  phone : string
}.

Record OrderLine := mkOrderLine {
  product_id : string;
  line_quantity : Z;
  line_price : Z
}.

Record DjangoOrderCreate := mkOrder {
  order_items : list OrderLine;
  total_amount : Z;
  payment_method : PaymentMethod;
  shipping : Address
}.

Record User := mkUser {
  user_id : string;
  email : string;
  user_name : string
}.

(** The JSON values the endpoints answer with. [JsonCart rows] is the array
    of [{ product_details, quantity }] rows of [orders/cart/], each row
    already read as [{ product: product_details, quantity }]. [JsonObject]
    is any other object, for instance the [{ detail: ... }] that the
    backend sends along with an error status. *)
Inductive Json :=
| JsonCart (rows : Cart)
| JsonUser (u : User)
| JsonTokens (token : option string)
| JsonOrder (order_id : string)
| JsonObject.

(** The requests of [authService] and [ordersService] that the cart and
    session code issues. *)
Inductive Request :=
| ordersService_clearCart
| ordersService_createOrder (orderData : DjangoOrderCreate)
| ordersService_getUserCart
| ordersService_addItemToCart (productId : string) (quantity0 : Z)
| ordersService_removeItemFromCart (productId : string)
| ordersService_updateItemQuantity (productId : string) (quantity0 : Z)
| ordersService_mergeCart (guestCart : Cart)
| authService_getUserProfile
| authService_refreshToken (refreshTokenValue : string).

(** What [fetch] settles to: [json] is the outcome of [response.json()]. *)
Record Response := mkResponse {
  status : Z;
  json : Result Json
}.

Inductive FetchOutcome :=
| fetch_rejects (message : string)
| fetch_resolves (response : Response).

(** The backend as the client sees it: its answer to a request, given how
    many requests were issued before it. *)
Definition Server := nat -> Request -> FetchOutcome.

(** ** Durable local state ([localStorage]) *)

(** The text under key ['cart'], classified by what the code does with it:
    [blank] is the empty string, which [if (storedCart)] takes as absent;
    [garbage text] is a non-empty text on which [JSON.parse] throws;
    [stringified c] is [JSON.stringify(c)], which parses back to [c].
    These are the texts the code itself writes under the key, and the ones
    that do not parse. A text that parses to another JSON value (['null'],
    ['{}'], an array of something else) has no constructor: the code
    assigns the parsed value to [localCart] unchecked, a value that is not
    a [CartItem[]] and that [Cart] cannot hold. Statements over [Snapshot]
    say nothing about such a text. *)
Inductive Snapshot :=
| blank
| garbage (text : string)
| stringified (c : Cart).

Definition snapshot_truthy (s : Snapshot) : bool :=
  match s with blank => false | _ => true end.

Definition JSON_parse (s : Snapshot) : Result Cart :=
  match s with
  | blank => Err "Unexpected end of JSON input"
  | garbage text => Err ("Unexpected token in JSON: " ++ text)
  | stringified c => Ok c
  end.

(** The text under key ['authTokens']. *)
Inductive StoredTokens :=
| tokens_garbage
| tokens_json (access refresh : option string).

Record Storage := mkStorage {
  cart_key : option Snapshot;
  cartMerged_key : option string;
  checkoutComplete_key : option string;
  authTokens_key : option StoredTokens;
  user_key : option Json
}.

(** ** Component state *)

(** AuthContext.tsx, lines 326-330: the state variables that the session
    code reads or sets. [refreshTimer] tells whether the state variable of
    line 330 holds an interval handle; only [setRefreshTimer] changes it. *)
Record AuthProvider := mkAuth {
  user : option Json;
  lastRefreshAttempt : Z;
  refreshTimer : bool
}.

(** CartContext.tsx, lines 35-39, and the [setTimeout] handle of the sync
    effect: its deadline and the [items] its closure captured. *)
Record CartProvider := mkCartProvider {
  items : Cart;
  syncingRef : bool;
  initialLoadRef : bool;
  lastSyncedItemsRef : Cart;
  debounceTimeout : option (Z * Cart)
}.

(** What the outside can observe, oldest first. *)
Inductive Event :=
| Toasted (t : Toast)
| Requested (r : Request)
| Navigated (path : string)
| Console (message : string).

Record World := mkWorld {
  localStorage : Storage;
  authProvider : AuthProvider;
  cartProvider : CartProvider;
  isProcessing : bool;
  events : list Event
}.

(** ** A state monad over the world; a rejected promise is an [Err] value *)

Definition App (A : Type) : Type := World -> A * World.

Definition ret {A} (a : A) : App A := fun w => (a, w).

Definition bind {A B} (m : App A) (k : A -> App B) : App B :=
  fun w => let (a, w') := m w in k a w'.

Declare Scope app_scope.
Delimit Scope app_scope with app.
Bind Scope app_scope with App.
Notation "x <- m ;; k" := (bind m (fun x => k))
  (at level 61, m at next level, right associativity) : app_scope.
Notation "m ;; k" := (bind m (fun _ => k))
  (at level 61, right associativity) : app_scope.
Open Scope app_scope.

(** [await m] inside a [try] block or an [async] body: a rejection skips the
    rest of the block. *)
Definition bindE {A B} (m : App (Result A)) (k : A -> App (Result B))
  : App (Result B) :=
  r <- m ;;
  match r with
  | Ok a => k a
  | Err e => ret (Err e)
  end.

Notation "x <-! m ;; k" := (bindE m (fun x => k))
  (at level 61, m at next level, right associativity) : app_scope.

Definition gets {A} (f : World -> A) : App A := fun w => (f w, w).

Definition modify (f : World -> World) : App unit := fun w => (tt, f w).

Definition when (b : bool) (m : App unit) : App unit :=
  if b then m else ret tt.

(** *** Field updates *)

Definition on_storage (f : Storage -> Storage) : App unit :=
  modify (fun w => mkWorld (f (localStorage w)) (authProvider w)
                     (cartProvider w) (isProcessing w) (events w)).

Definition on_auth (f : AuthProvider -> AuthProvider) : App unit :=
  modify (fun w => mkWorld (localStorage w) (f (authProvider w))
                     (cartProvider w) (isProcessing w) (events w)).

Definition on_cart (f : CartProvider -> CartProvider) : App unit :=
  modify (fun w => mkWorld (localStorage w) (authProvider w)
                     (f (cartProvider w)) (isProcessing w) (events w)).

Definition setIsProcessing (b : bool) : App unit :=
  modify (fun w => mkWorld (localStorage w) (authProvider w)
                     (cartProvider w) b (events w)).

Definition emit (e : Event) : App unit :=
  modify (fun w => mkWorld (localStorage w) (authProvider w)
                     (cartProvider w) (isProcessing w)
                     (events w ++ [e])%list).

Definition toast (t : Toast) : App unit := emit (Toasted t).
Definition navigate (path : string) : App unit := emit (Navigated path).
Definition console (message : string) : App unit := emit (Console message).

Definition store_cart (v : option Snapshot) : App unit :=
  on_storage (fun s => mkStorage v (cartMerged_key s)
                         (checkoutComplete_key s) (authTokens_key s)
                         (user_key s)).

Definition store_cartMerged (v : option string) : App unit :=
  on_storage (fun s => mkStorage (cart_key s) v (checkoutComplete_key s)
                         (authTokens_key s) (user_key s)).

Definition store_checkoutComplete (v : option string) : App unit :=
  on_storage (fun s => mkStorage (cart_key s) (cartMerged_key s) v
                         (authTokens_key s) (user_key s)).

Definition store_authTokens (v : option StoredTokens) : App unit :=
  on_storage (fun s => mkStorage (cart_key s) (cartMerged_key s)
                         (checkoutComplete_key s) v (user_key s)).

Definition store_user (v : option Json) : App unit :=
  on_storage (fun s => mkStorage (cart_key s) (cartMerged_key s)
                         (checkoutComplete_key s) (authTokens_key s) v).

Definition setUser (v : option Json) : App unit :=
  on_auth (fun a => mkAuth v (lastRefreshAttempt a) (refreshTimer a)).

Definition setLastRefreshAttempt (v : Z) : App unit :=
  on_auth (fun a => mkAuth (user a) v (refreshTimer a)).

Definition setRefreshTimer (v : bool) : App unit :=
  on_auth (fun a => mkAuth (user a) (lastRefreshAttempt a) v).

Definition setItems (v : Cart) : App unit :=
  on_cart (fun c => mkCartProvider v (syncingRef c) (initialLoadRef c)
                      (lastSyncedItemsRef c) (debounceTimeout c)).

Definition set_syncingRef (v : bool) : App unit :=
  on_cart (fun c => mkCartProvider (items c) v (initialLoadRef c)
                      (lastSyncedItemsRef c) (debounceTimeout c)).

Definition set_initialLoadRef (v : bool) : App unit :=
  on_cart (fun c => mkCartProvider (items c) (syncingRef c) v
                      (lastSyncedItemsRef c) (debounceTimeout c)).

Definition set_lastSyncedItemsRef (v : Cart) : App unit :=
  on_cart (fun c => mkCartProvider (items c) (syncingRef c)
                      (initialLoadRef c) v (debounceTimeout c)).

Definition set_debounceTimeout (v : option (Z * Cart)) : App unit :=
  on_cart (fun c => mkCartProvider (items c) (syncingRef c)
                      (initialLoadRef c) (lastSyncedItemsRef c) v).

(** *** Requests *)

Definition requests (evs : list Event) : list Request :=
  flat_map (fun e => match e with Requested r => [r] | _ => [] end) evs.

Definition fetch (server : Server) (r : Request) : App FetchOutcome :=
  n <- gets (fun w => List.length (requests (events w))) ;;
  emit (Requested r) ;;
  ret (server n r).

(** [apiRequest] (services/api.ts, lines 204-234), from its [fetch] on:
    what the call does once [getHeaders] (line 210) has returned. That
    first statement throws when the text under ['authTokens'] does not
    parse; [apiRequest_with_headers] below puts it in front, and the
    statements about calls made from stored credentials of any kind carry
    [credentials_parse]. A 401 status is written to the console and nothing
    else: the function returns [response.json()] whatever the status is. *)
Definition apiRequest (server : Server) (r : Request) : App (Result Json) :=
  o <- fetch server r ;;
  match o with
  | fetch_rejects m => ret (Err m)
  | fetch_resolves response =>
      when (status response =? 401)
        (console "Unauthorized: Token may be missing or invalid") ;;
      ret (json response)
  end.

(** [response.ok] *)
Definition ok (response : Response) : bool :=
  (200 <=? status response) && (status response <=? 299).

(** [authService.refreshToken] (services/api.ts, lines 238-247) goes through
    [fetch] itself and throws on a status that is not ok. *)
Definition authService_refreshToken_call (server : Server)
  (refreshTokenValue : string) : App (Result Json) :=
  o <- fetch server (authService_refreshToken refreshTokenValue) ;;
  match o with
  | fetch_rejects m => ret (Err m)
  | fetch_resolves response =>
      if ok response then ret (json response)
      else ret (Err "Failed to refresh token")
  end.

(** ** SessionGuard (AuthContext.tsx) *)

(** [isAuthenticated: !!user] *)
Definition isAuthenticated (w : World) : bool :=
  match user (authProvider w) with Some _ => true | None => false end.

(** [clearAuthState] (lines 381-386). Line 385 hands the handle that the
    closure captured to [clearInterval] and sets no state: the state
    variable [refreshTimer] keeps its value. *)
Definition clearAuthState : App unit :=
  store_authTokens None ;;
  store_user None ;;
  setUser None.

(** [signOut] (lines 502-505) *)
Definition signOut : App unit :=
  clearAuthState ;;
  toast (toast_success "Signed out successfully").

(** [JSON.parse(localStorage.getItem('authTokens') || 'null')], read as the
    pair [(tokens?.access, tokens?.refresh)]. *)
Definition read_authTokens : App (Result (option string * option string)) :=
  stored <- gets (fun w => authTokens_key (localStorage w)) ;;
  match stored with
  | None => ret (Ok (None, None))
  | Some tokens_garbage => ret (Err "Unexpected token in JSON")
  | Some (tokens_json a r) => ret (Ok (a, r))
  end.

(** [attemptTokenRefresh] (lines 396-421). The first [JSON.parse] stands
    outside the [try], so its error reaches the caller. *)
Definition attemptTokenRefresh (server : Server) : App (Result bool) :=
  tokens <-! read_authTokens ;;
  match snd tokens with
  | Some refreshTokenValue =>
      if nonempty refreshTokenValue then
        r <- (response <-! authService_refreshToken_call server
                             refreshTokenValue ;;
              match response with
              | JsonTokens (Some token) =>
                  if nonempty token then
                    store_authTokens
                      (Some (tokens_json (Some token)
                               (Some refreshTokenValue))) ;;
                    ret (Ok tt)
                  else ret (Err "No access token returned from refresh")
              | _ => ret (Err "No access token returned from refresh")
              end) ;;
        match r with
        | Ok _ =>
            p <- apiRequest server authService_getUserProfile ;;
            match p with
            | Ok userData =>
                setUser (Some userData) ;;
                store_user (Some userData) ;;
                ret (Ok true)
            | Err _ => ret (Ok true)
            end
        | Err _ =>
            clearAuthState ;;
            ret (Ok false)
        end
      else ret (Ok false)
  | None => ret (Ok false)
  end.

(** [refreshToken] (lines 423-449), as the function object of one render:
    [render] holds the [lastRefreshAttempt] and the [user] that the closure
    captured. The guard and the status it returns read those; what follows
    the guard goes through the setters and [localStorage]. [now] is
    [Date.now()]. *)
Definition refreshToken_of (render : AuthProvider) (server : Server)
  (now : Z) : App bool :=
  if now - lastRefreshAttempt render <? 2000 then
    ret (match user render with Some _ => true | None => false end)
  else
    setLastRefreshAttempt now ;;
    r <- (tokens <-! read_authTokens ;;
          if truthy (fst tokens) then
            p <- apiRequest server authService_getUserProfile ;;
            match p with
            | Ok userData =>
                setUser (Some userData) ;;
                store_user (Some userData) ;;
                ret (Ok true)
            | Err _ => attemptTokenRefresh server
            end
          else attemptTokenRefresh server) ;;
    match r with
    | Ok b => ret b
    | Err _ =>
        clearAuthState ;;
        ret false
    end.

(** A call through the function of the latest render, the one a component
    gets from [useAuth()] when it renders after the provider: the captured
    values are those the provider committed last. *)
Definition refreshToken (server : Server) (now : Z) : App bool :=
  fun w => refreshToken_of (authProvider w) server now w.

(** ** CartProvider effects (CartContext.tsx) *)

(** [mapByProductId] (lines 169-173) *)
Definition mapByProductId (arr : Cart) : JsMap :=
  fold_left (fun m item => Map_set m (pid item) item) arr [].

(** The loop over [lastMap.entries()] (lines 179-184) *)
Fixpoint removedLoop (server : Server) (entries : JsMap) (currentMap : JsMap)
  : App (Result unit) :=
  match entries with
  | [] => ret (Ok tt)
  | (productId, lastItem) :: rest =>
      _ <-! (if negb (Map_has currentMap productId) then
               console "Removing item from backend cart:" ;;
               _ <-! apiRequest server
                       (ordersService_removeItemFromCart productId) ;;
               ret (Ok tt)
             else ret (Ok tt)) ;;
      removedLoop server rest currentMap
  end.

(** The loop over [currentMap.entries()] (lines 187-196) *)
Fixpoint changedLoop (server : Server) (entries : JsMap) (lastMap : JsMap)
  : App (Result unit) :=
  match entries with
  | [] => ret (Ok tt)
  | (productId, currentItem) :: rest =>
      _ <-! match Map_get lastMap productId with
            | None =>
                console "Adding item to backend cart:" ;;
                _ <-! apiRequest server
                        (ordersService_addItemToCart productId
                           (quantity currentItem)) ;;
                ret (Ok tt)
            | Some lastItem =>
                if negb (quantity lastItem =? quantity currentItem) then
                  console "Updating item quantity in backend cart:" ;;
                  _ <-! apiRequest server
                          (ordersService_updateItemQuantity productId
                             (quantity currentItem)) ;;
                  ret (Ok tt)
                else ret (Ok tt)
            end ;;
      changedLoop server rest lastMap
  end.

(** [syncCartToBackend] (lines 160-210); [currentItems] is the [items] the
    closure captured. The baseline takes the array itself; the store never
    mutates an array in place, so the alias cannot change it afterwards. *)
Definition syncCartToBackend (server : Server) (currentItems : Cart)
  : App unit :=
  r <- (lastSyncedItems <-
          gets (fun w => lastSyncedItemsRef (cartProvider w)) ;;
        console "Syncing cart to backend. Last synced items:" ;;
        console "Current items:" ;;
        let lastMap := mapByProductId lastSyncedItems in
        let currentMap := mapByProductId currentItems in
        _ <-! removedLoop server lastMap currentMap ;;
        _ <-! changedLoop server currentMap lastMap ;;
        set_lastSyncedItemsRef currentItems ;;
        ret (Ok tt)) ;;
  match r with
  | Ok _ => ret tt
  | Err message =>
      console "Failed to sync cart to backend:" ;;
      when (includes message "Unauthorized")
        (signOut ;;
         toast (toast_error "Session expired. Please log in again."))
  end ;;
  set_syncingRef false.

(** The body of the sync effect (lines 141-214), run at time [now]. *)
Definition syncEffect (now : Z) : App unit :=
  console "CartContext syncing useEffect triggered. Items:" ;;
  authed <- gets isAuthenticated ;;
  if negb authed then
    console "Not authenticated or no user, skipping sync"
  else
    c <- gets cartProvider ;;
    if initialLoadRef c then console "Initial load, skipping sync"
    else if syncingRef c then console "Already syncing, skipping this sync"
    else
      set_syncingRef true ;;
      set_debounceTimeout (Some (now + 500, items c)).

(** Its cleanup (line 215): [clearTimeout(debounceTimeout)]. *)
Definition syncEffect_cleanup : App unit := set_debounceTimeout None.

(** The save effect (lines 136-138) *)
Definition saveEffect : App unit :=
  c <- gets (fun w => items (cartProvider w)) ;;
  store_cart (Some (stringified c)).

(** The logout effect (lines 125-133) *)
Definition logoutEffect : App unit :=
  authed <- gets isAuthenticated ;;
  when (negb authed)
    (setItems [] ;;
     store_cart None ;;
     store_cartMerged None ;;
     set_initialLoadRef true ;;
     set_lastSyncedItemsRef []).

(** What React runs once a new [items] array is committed: the cleanup of
    the effects that depend on [items], then their bodies in source order. *)
Definition itemsChanged (now : Z) : App unit :=
  syncEffect_cleanup ;;
  saveEffect ;;
  syncEffect now.

(** The toasts an updater asked for, in order. *)
Definition raise (ts : list Toast) : App unit :=
  fold_right (fun t k => toast t ;; k) (ret tt) ts.

(** A store mutation coming from the UI at time [now]. [clearCart] also
    drops the three cart keys (lines 264-266) before the effects run. *)
Definition dispatch (op : CartOp) (now : Z) : App unit :=
  c <- gets (fun w => items (cartProvider w)) ;;
  let (next, ts) := updater op c in
  setItems next ;;
  raise ts ;;
  match op with
  | ClearCart =>
      store_cart None ;;
      store_cartMerged None ;;
      store_checkoutComplete None
  | _ => ret tt
  end ;;
  itemsChanged now.

(** Time passing up to [now]: a pending debounce timer whose deadline is
    reached fires and runs the cycle. *)
Definition elapse (server : Server) (now : Z) : App unit :=
  t <- gets (fun w => debounceTimeout (cartProvider w)) ;;
  match t with
  | Some (deadline, captured) =>
      if deadline <=? now then
        set_debounceTimeout None ;;
        syncCartToBackend server captured
      else ret tt
  | None => ret tt
  end.

Inductive Input :=
| Mutation (op : CartOp) (now : Z)
| Elapsed (now : Z).

Definition step (server : Server) (i : Input) : App unit :=
  match i with
  | Mutation op now => dispatch op now
  | Elapsed now => elapse server now
  end.

Fixpoint run (server : Server) (inputs : list Input) : App unit :=
  match inputs with
  | [] => ret tt
  | i :: rest => step server i ;; run server rest
  end.

(** A cycle announces itself on the console when it starts (line 165). *)
Definition is_cycle_start (e : Event) : bool :=
  match e with
  | Console m => (m =? "Syncing cart to backend. Last synced items:")%string
  | _ => false
  end.

Definition sync_cycles (w : World) : nat :=
  List.length (filter is_cycle_start (events w)).

(** ** loadCart (CartContext.tsx, lines 56-120) *)

(** Lines 78-87: the snapshot read and its parse. *)
Definition readLocalCart : App Cart :=
  storedCart <- gets (fun w => cart_key (localStorage w)) ;;
  match storedCart with
  | Some text =>
      if snapshot_truthy text then
        match JSON_parse text with
        | Ok parsed => ret parsed
        | Err _ =>
            console "Failed to parse stored cart:" ;;
            store_cart None ;;
            ret []
        end
      else ret []
  | None => ret []
  end.

(** [backendCart.map(...)] throws a TypeError on anything but an array. *)
Definition mapBackendCart (backendCart : Json) : Result Cart :=
  match backendCart with
  | JsonCart rows => Ok rows
  | _ => Err "backendCart.map is not a function"
  end.

Definition is_true (v : option string) : bool :=
  match v with Some s => (s =? "true")%string | None => false end.

(** The [try] block of the signed-in branch (lines 91-108). *)
Definition loadCart_try (server : Server) (localCart : Cart)
  : App (Result unit) :=
  cartMerged <- gets (fun w => cartMerged_key (localStorage w)) ;;
  _ <-! (if (0 <? Z.of_nat (List.length localCart))
            && negb (is_true cartMerged)
         then
           _ <-! apiRequest server (ordersService_mergeCart localCart) ;;
           store_cartMerged (Some "true") ;;
           ret (Ok tt)
         else ret (Ok tt)) ;;
  backendCart <-! apiRequest server ordersService_getUserCart ;;
  console "Backend cart fetched on login:" ;;
  match mapBackendCart backendCart with
  | Ok mappedBackendCart =>
      setItems mappedBackendCart ;;
      set_lastSyncedItemsRef mappedBackendCart ;;
      store_cart None ;;
      set_initialLoadRef false ;;
      ret (Ok tt)
  | Err m => ret (Err m)
  end.

Definition loadCart (server : Server) : App unit :=
  checkoutComplete <- gets (fun w => checkoutComplete_key (localStorage w)) ;;
  authed <- gets isAuthenticated ;;
  if is_true checkoutComplete then
    setItems [] ;;
    store_cart None ;;
    store_cartMerged None ;;
    store_checkoutComplete None ;;
    set_lastSyncedItemsRef [] ;;
    set_initialLoadRef false ;;
    when authed
      (_ <- apiRequest server ordersService_clearCart ;; ret tt)
  else
    localCart <- readLocalCart ;;
    if authed then
      r <- loadCart_try server localCart ;;
      match r with
      | Ok _ => ret tt
      | Err _ =>
          console "Failed to load user cart:" ;;
          setItems localCart ;;
          set_lastSyncedItemsRef localCart ;;
          set_initialLoadRef false
      end
    else
      setItems localCart ;;
      set_lastSyncedItemsRef localCart ;;
      set_initialLoadRef false.

(** ** processCheckout (useCheckout.tsx, lines 15-117) *)

(** The [items.map] of lines 46-58: an item whose product id is falsy
    throws. *)
Fixpoint orderItems (its : Cart) : Result (list OrderLine) :=
  match its with
  | [] => Ok []
  | item :: rest =>
      if nonempty (pid item) then
        match orderItems rest with
        | Ok lines =>
            Ok ({| product_id := pid item;
                   line_quantity := quantity item;
                   line_price := price (product item) |} :: lines)
        | Err m => Err m
        end
      else Err "Invalid product data in cart"
  end.

(** [totalPrice] (CartContext.tsx, lines 271-274) *)
Definition totalPrice (its : Cart) : Z :=
  fold_left (fun total item => total + price (product item) * quantity item)
    its 0.

(** [response.id] inside the template string of line 81 *)
Definition response_id (response : Json) : string :=
  match response with
  | JsonOrder order_id => order_id
  | _ => "undefined"
  end.

Definition is_auth_failure (message : string) : bool :=
  includes message "Unauthorized" || includes message "401"
  || includes message "token_not_valid"
  || includes message "Token is invalid".

(** The outcome is [Ok None] for [return null], [Ok (Some response)] for
    [return response] and [Err m] when the promise rejects. *)
Definition processCheckout (server : Server) (now : Z)
  (shippingAddress : Address) (paymentMethod : PaymentMethod)
  : App (Result (option Json)) :=
  setIsProcessing true ;;
  its <- gets (fun w => items (cartProvider w)) ;;
  r <- (console "Attempting to refresh token before checkout" ;;
        tokenRefreshed <- refreshToken server now ;;
        if negb tokenRefreshed then
          console "Failed to refresh authentication token" ;;
          toast (toast_error
            "Your session has expired. Please sign in again to continue.") ;;
          navigate "/cart" ;;
          setIsProcessing false ;;
          ret (Ok None)
        else
          console "Authentication check successful, proceeding with checkout" ;;
          if (List.length its =? 0)%nat then
            console "No items in cart" ;;
            toast (toast_error
              "Your cart is empty. Please add items before checking out.") ;;
            navigate "/cart" ;;
            setIsProcessing false ;;
            ret (Ok None)
          else
            match orderItems its with
            | Err m => ret (Err m)
            | Ok lines =>
                let orderData :=
                  {| order_items := lines;
                     total_amount := totalPrice its;
                     payment_method := paymentMethod;
                     shipping := shippingAddress |} in
                response <-! apiRequest server
                               (ordersService_createOrder orderData) ;;
                toast (toast_success
                  ("Order #" ++ response_id response
                   ++ " placed successfully!")) ;;
                dispatch ClearCart now ;;
                navigate "/" ;;
                ret (Ok (Some response))
            end) ;;
  match r with
  | Ok v => ret tt
  | Err message =>
      console "Checkout error:" ;;
      if is_auth_failure message then
        toast (toast_error
          "Your session has expired. Please sign in again to continue.") ;;
        navigate "/cart"
      else
        toast (toast_error
          (if nonempty message then message
           else "Failed to process your order"))
  end ;;
  setIsProcessing false ;;
  ret r.

(** ** Auxiliary predicates and sample data *)

(** An [addItem] that adds at least one unit. *)
Definition adds_at_least_one (op : CartOp) : Prop :=
  match op with
  | AddItem _ q => 1 <= q
  | _ => True
  end.

(** A map whose entries sit under the id of their own product, each key
    once: what [mapByProductId] and [mergeCarts] build. *)
Definition keyed (m : JsMap) : Prop :=
  Forall (fun entry => pid (snd entry) = fst entry) m /\ NoDup (Map_keys m).

Definition shirt : Product := mkProduct "A" "Shirt" 450.
Definition jeans : Product := mkProduct "B" "Jeans" 900.
Definition cap : Product := mkProduct "C" "Cap" 250.

(** ** Reading a run *)

(** The world with [evs] appended to what was observed so far. *)
Definition log (evs : list Event) (w : World) : World :=
  mkWorld (localStorage w) (authProvider w) (cartProvider w)
    (isProcessing w) (events w ++ evs)%list.

(** The requests a computation issues when run from [w], in order. *)
Definition issued_by {A} (m : App A) (w : World) : list Request :=
  skipn (List.length (requests (events w))) (requests (events (snd (m w)))).

(** The toasts it raises. *)
Definition toasts (evs : list Event) : list Toast :=
  flat_map (fun e => match e with Toasted t => [t] | _ => [] end) evs.

Definition raised_by {A} (m : App A) (w : World) : list Toast :=
  skipn (List.length (toasts (events w))) (toasts (events (snd (m w)))).

(** A backend every call to which settles with a JSON body, whatever the
    status: each [apiRequest] then fulfils. *)
Definition answers (server : Server) : Prop :=
  forall n r, exists response value,
    server n r = fetch_resolves response /\ json response = Ok value.

(** ** The diff of the sync cycle in the words of the specification *)

(** [planned baseline current r]: request [r] is called for by the diff of
    [current] against [baseline]. *)
Definition planned (baseline current : Cart) (r : Request) : Prop :=
  (exists k,
      r = ordersService_removeItemFromCart k
      /\ In k (ids baseline) /\ ~ In k (ids current))
  \/ (exists k q,
         r = ordersService_addItemToCart k q
         /\ quantityOf current k = Some q /\ ~ In k (ids baseline))
  \/ (exists k q q0,
         r = ordersService_updateItemQuantity k q
         /\ quantityOf current k = Some q
         /\ quantityOf baseline k = Some q0 /\ q0 <> q).

(** What one pass of each loop of the cycle asks of the backend. *)
Definition removal (currentMap : JsMap) (entry : string * CartItem)
  : list Request :=
  if negb (Map_has currentMap (fst entry))
  then [ordersService_removeItemFromCart (fst entry)]
  else [].

Definition change (lastMap : JsMap) (entry : string * CartItem)
  : list Request :=
  match Map_get lastMap (fst entry) with
  | None => [ordersService_addItemToCart (fst entry) (quantity (snd entry))]
  | Some lastItem =>
      if negb (quantity lastItem =? quantity (snd entry))
      then [ordersService_updateItemQuantity (fst entry)
              (quantity (snd entry))]
      else []
  end.

(** The requests of the two loops of the cycle, in the order they are
    issued. *)
Definition diff_requests (baseline current : Cart) : list Request :=
  (flat_map (removal (mapByProductId current)) (mapByProductId baseline)
   ++ flat_map (change (mapByProductId baseline)) (mapByProductId current))%list.

(** The product a cart request is about. *)
Definition target (r : Request) : option string :=
  match r with
  | ordersService_addItemToCart k _ => Some k
  | ordersService_removeItemFromCart k => Some k
  | ordersService_updateItemQuantity k _ => Some k
  | _ => None
  end.

Definition is_removal (r : Request) : bool :=
  match r with ordersService_removeItemFromCart _ => true | _ => false end.

(** A backend that accepts everything, and one that turns every call down
    with status 401 and the usual JSON error body. *)
Definition accepting : Server :=
  fun _ _ => fetch_resolves (mkResponse 200 (Ok JsonObject)).

Definition unauthorized : Server :=
  fun _ _ => fetch_resolves (mkResponse 401 (Ok JsonObject)).

Definition customer : Json :=
  JsonUser (mkUser "u1" "ana@example.com" "Ana").

(** A signed-in session with cart [its], in step with the backend
    ([baseline]), loaded and idle; the last refresh attempt dates from
    [last]. *)
Definition signed_in (its baseline : Cart) (last : Z) : World :=
  mkWorld
    (mkStorage (Some (stringified its)) (Some "true") None
       (Some (tokens_json (Some "access-1") (Some "refresh-1")))
       (Some customer))
    (mkAuth (Some customer) last true)
    (mkCartProvider its false false baseline None)
    false [].

(** The single-flight flag up with no timer pending. *)
Definition stuck (w : World) : Prop :=
  syncingRef (cartProvider w) = true
  /\ debounceTimeout (cartProvider w) = None.

(** ** Reading a load *)

(** A call that fulfils: the backend answered, and with a JSON body. *)
Definition fulfils (o : FetchOutcome) : bool :=
  match o with
  | fetch_resolves response =>
      match json response with Ok _ => true | Err _ => false end
  | fetch_rejects _ => false
  end.

(** The guard of the merge push (line 93). *)
Definition merge_due (localCart : Cart) (w : World) : bool :=
  (0 <? Z.of_nat (List.length localCart))
  && negb (is_true (cartMerged_key (localStorage w))).

(** The signed-in load fails: its [try] block ends in the [catch]. *)
Definition load_fails (server : Server) (w : World) : Prop :=
  exists message w1,
    loadCart_try server (fst (readLocalCart w)) (snd (readLocalCart w))
    = (Err message, w1).

(** A page load right after sign-in: the guest cart [snapshot] is still in
    [localStorage], no merge has been recorded, the provider is fresh. *)
Definition first_load (snapshot : option Snapshot) (u : option Json) : World :=
  mkWorld
    (mkStorage snapshot None None
       (match u with
        | Some _ => Some (tokens_json (Some "access-1") (Some "refresh-1"))
        | None => None
        end) u)
    (mkAuth u 0 true)
    (mkCartProvider [] false true [] None)
    false [].

(** A backend whose cart endpoint answers with [rows]. *)
Definition backend_cart (rows : Cart) : Server :=
  fun n r =>
    match r with
    | ordersService_getUserCart =>
        fetch_resolves (mkResponse 200 (Ok (JsonCart rows)))
    | _ => fetch_resolves (mkResponse 200 (Ok JsonObject))
    end.

(** A backend that takes the merge push and then cannot be reached. *)
Definition merge_then_down : Server :=
  fun n r =>
    match r with
    | ordersService_mergeCart _ =>
        fetch_resolves (mkResponse 200 (Ok JsonObject))
    | _ => fetch_rejects "Failed to fetch"
    end.

(** A backend whose profile endpoint cannot be reached and whose refresh
    endpoint hands out a new access token. *)
Definition profile_down : Server :=
  fun n r =>
    match r with
    | authService_refreshToken _ =>
        fetch_resolves (mkResponse 200 (Ok (JsonTokens (Some "access-2"))))
    | _ => fetch_rejects "Failed to fetch"
    end.

(** ** Reading a session refresh *)

Definition is_refresh_call (r : Request) : bool :=
  match r with authService_refreshToken _ => true | _ => false end.

(** How many calls to the refresh endpoint there are among [rs]. *)
Definition refresh_calls (rs : list Request) : nat :=
  List.length (filter is_refresh_call rs).

(** The two requests of the session guard. *)
Definition is_session_call (r : Request) : bool :=
  match r with
  | authService_getUserProfile => true
  | authService_refreshToken _ => true
  | _ => false
  end.

Definition is_error_toast (t : Toast) : bool :=
  match t with toast_error _ => true | toast_success _ => false end.

Definition home : Address :=
  mkAddress "Ana" "Cruz" "12 Mabini St" "Cebu" "Cebu" "6000" "0917000000".

(** ** Further code of the cart store and its callers *)

(** [totalItems] (CartContext.tsx, line 269) *)
Definition totalItems (its : Cart) : Z :=
  fold_left (fun total item => total + quantity item) its 0.

(** The quantity stepper of the product page (ProductPage.tsx, lines
    42 and 69-77): the state starts at 1. *)
Inductive Click :=
| incrementQuantity
| decrementQuantity.

Definition click (quantity0 : Z) (c : Click) : Z :=
  match c with
  | incrementQuantity => quantity0 + 1
  | decrementQuantity => if 1 <? quantity0 then quantity0 - 1 else quantity0
  end.

Definition stepper (clicks : list Click) : Z := fold_left click clicks 1.

(** [handleAddToCart] of the product page (lines 65-67) *)
Definition handleAddToCart (product0 : Product) (clicks : list Click)
  : Cart -> Cart * list Toast :=
  addItem product0 (stepper clicks).

(** The related products of the product page (lines 33-36):
    [(list || []).filter(p => p.id !== product.id).slice(0, 5)] *)
Definition relatedProducts (product0 : Product) (list0 : list Product)
  : list Product :=
  firstn 5 (filter (fun p => negb (id p =? id product0)%string) list0).

(** What the pages call the store with: the product page adds the
    stepper's quantity, the product card (ProductCard, [addItem(productToAdd)])
    relies on the default [quantity = 1] of [addItem]. *)
Inductive UiOp :=
| PageAdd (product0 : Product) (clicks : list Click)
| CardAdd (product0 : Product)
| UiRemove (productId : string)
| UiUpdate (productId : string) (quantity0 : Z)
| UiClear.

Definition ui_op (u : UiOp) : CartOp :=
  match u with
  | PageAdd p clicks => AddItem p (stepper clicks)
  | CardAdd p => AddItem p 1
  | UiRemove k => RemoveItem k
  | UiUpdate k q => UpdateQuantity k q
  | UiClear => ClearCart
  end.

(** ** Reading a loop of the cycle *)

(** A loop that went through has issued all its requests; one that was cut
    short has issued a first part of them. Neither raises a toast. *)
Definition loop_outcome (res : Result unit) (evs : list Event)
  (all : list Request) : Prop :=
  toasts evs = []
  /\ match res with
     | Ok _ => requests evs = all
     | Err _ =>
         requests evs <> [] /\ exists rest, all = (requests evs ++ rest)%list
     end.

(** A session in which the sync effect returns before arming a timer:
    nobody is signed in, or the initial load is not over; and no timer is
    pending. *)
Definition suppressed (w : World) : Prop :=
  (isAuthenticated w = false \/ initialLoadRef (cartProvider w) = true)
  /\ debounceTimeout (cartProvider w) = None.

(** What React runs once [signOut] has made [user] null: the cleanup of
    the sync effect, then the bodies of the effects that depend on the
    session, in source order, which are the load (lines 55-121; for a guest
    it has no [await] and runs to its end), the logout effect (lines
    125-133) and the sync effect (lines 141-216); and, once the [items]
    array that these have set is committed, the effects that depend on
    [items]. *)
Definition signedOut (server : Server) (now : Z) : App unit :=
  syncEffect_cleanup ;;
  loadCart server ;;
  logoutEffect ;;
  syncEffect now ;;
  itemsChanged now.

(** The stored snapshot is the store content. *)
Definition mirrored (w : World) : Prop :=
  cart_key (localStorage w) = Some (stringified (items (cartProvider w))).

(** The stored credentials parse (or there are none): [getHeaders], which
    every authenticated [apiRequest] goes through, reads them with
    [JSON.parse] before the request is sent. *)
Definition credentials_parse (w : World) : Prop :=
  authTokens_key (localStorage w) <> Some tokens_garbage.

(** The access token a call to the refresh endpoint brings back, if the
    call is one [attemptTokenRefresh] accepts: settled, status ok, a JSON
    body with a non-empty [token]. *)
Definition renewed (o : FetchOutcome) : option string :=
  match o with
  | fetch_resolves response =>
      if ok response then
        match json response with
        | Ok (JsonTokens (Some token)) =>
            if nonempty token then Some token else None
        | _ => None
        end
      else None
  | fetch_rejects _ => None
  end.

(** The JSON body of a call that fulfils. *)
Definition body_of (o : FetchOutcome) : option Json :=
  match o with
  | fetch_resolves response =>
      match json response with Ok value => Some value | Err _ => None end
  | fetch_rejects _ => None
  end.

(** ** Reading a checkout *)

(** What [processCheckout] does before it refreshes the session, and that
    refresh (useCheckout.tsx, lines 19-24). *)
Definition checkout_prelude : App unit :=
  setIsProcessing true ;;
  console "Attempting to refresh token before checkout".

Definition checkout_refresh (server : Server) (now : Z) (w : World)
  : bool * World :=
  refreshToken server now (snd (checkout_prelude w)).

(** The order lines of a cart (the callback of lines 46-58, for an item
    that passes its test). *)
Definition order_line (item : CartItem) : OrderLine :=
  {| product_id := pid item;
     line_quantity := quantity item;
     line_price := price (product item) |}.

(** The toast of the [catch] block (lines 98-108). *)
Definition checkout_error_toast (message : string) : Toast :=
  toast_error
    (if is_auth_failure message
     then "Your session has expired. Please sign in again to continue."
     else if nonempty message then message
          else "Failed to process your order").

(** A backend whose order endpoint cannot be reached, and one that takes
    every order under the id [o-17]. *)
Definition order_down : Server :=
  fun n r =>
    match r with
    | ordersService_createOrder _ => fetch_rejects "Failed to fetch"
    | _ => fetch_resolves (mkResponse 200 (Ok JsonObject))
    end.

Definition order_taker : Server :=
  fun n r =>
    match r with
    | ordersService_createOrder _ =>
        fetch_resolves (mkResponse 201 (Ok (JsonOrder "o-17")))
    | _ => fetch_resolves (mkResponse 200 (Ok JsonObject))
    end.

Definition ghost : Product := mkProduct "" "Ghost" 10.


(** ** Request headers (services/api.ts, lines 131-154) *)

(** [getToken]: [tokens?.access || null] *)
Definition getToken (s : Storage) : Result (option string) :=
  match authTokens_key s with
  | None => Ok None
  | Some tokens_garbage => Err "Unexpected token in JSON"
  | Some (tokens_json access _) => Ok (if truthy access then access else None)
  end.

(** [getHeaders] *)
Definition getHeaders (includeAuth : bool) (s : Storage)
  : Result (list (string * string)) :=
  let headers := [("Content-Type", "application/json")] in
  if includeAuth then
    match getToken s with
    | Ok token =>
        match token with
        | Some value =>
            if nonempty value
            then Ok (headers
                     ++ [("Authorization", ("Bearer " ++ value)%string)])%list
            else Ok headers
        | None => Ok headers
        end
    | Err m => Err m
    end
  else Ok headers.

(** [apiRequest] with its first statement, [getHeaders(requireAuth)]
    (services/api.ts, line 210): an error thrown there rejects the call
    before [fetch] is reached. *)
Definition apiRequest_with_headers (requireAuth : bool) (server : Server)
  (r : Request) : App (Result Json) :=
  s <- gets localStorage ;;
  match getHeaders requireAuth s with
  | Ok _ => apiRequest server r
  | Err m => ret (Err m)
  end.

(** ** Session start (AuthContext.tsx, lines 332-379) *)

(** [scheduleTokenRefresh] (lines 388-394): a new interval is set and its
    handle stored in the state variable. *)
Definition scheduleTokenRefresh : App unit := setRefreshTimer true.

(** The two flags the [finally] block of [loadUser] sets. *)
Record Startup := mkStartup {
  isLoading : bool;
  isInitialized : bool
}.

(** [loadUser] (lines 333-371). The text under ['user'] is one the code
    stored there itself, so the [JSON.parse] of line 342 gives it back; the
    [catch] of lines 358-360 then only sees what [attemptTokenRefresh]
    throws. *)
Definition loadUser (server : Server) : App Startup :=
  stored <- gets (fun w => authTokens_key (localStorage w)) ;;
  match stored with
  | Some tokens_garbage => ret tt
  | None => ret tt
  | Some (tokens_json accessToken refreshToken0) =>
      storedUser <- gets (fun w => user_key (localStorage w)) ;;
      match (if truthy accessToken then storedUser else None) with
      | Some parsedUser =>
          setUser (Some parsedUser) ;;
          p <- apiRequest server authService_getUserProfile ;;
          r <- match p with
               | Ok userData =>
                   setUser (Some userData) ;;
                   store_user (Some userData) ;;
                   scheduleTokenRefresh ;;
                   ret (Ok tt)
               | Err _ =>
                   authTokens <-! read_authTokens ;;
                   if truthy (snd authTokens) then
                     _ <-! attemptTokenRefresh server ;;
                     ret (Ok tt)
                   else
                     clearAuthState ;;
                     ret (Ok tt)
               end ;;
          match r with
          | Ok _ => ret tt
          | Err _ => clearAuthState
          end
      | None =>
          if truthy refreshToken0 then
            _ <- attemptTokenRefresh server ;;
            ret tt
          else clearAuthState
      end
  end ;;
  ret {| isLoading := false; isInitialized := true |}.

(** The provider as it is mounted: nobody signed in, no refresh attempted,
    no renewal interval. *)
Definition at_mount (w : World) : Prop :=
  authProvider w = mkAuth None 0 false.

(** A first render over the given stored credentials and cached user. *)
Definition startup (tokens : option StoredTokens) (cached : option Json)
  : World :=
  mkWorld (mkStorage None None None tokens cached)
    (mkAuth None 0 false)
    (mkCartProvider [] false true [] None)
    false [].
(* ================================================================== *)
(** * Verified properties *)
(* ================================================================== *)

(** ** CartStore *)

Section CartStoreFacts.

Implicit Types (c : Cart) (item : CartItem) (k : string).

Lemma findById_none_not_in : forall k c,
  findById k c = None -> ~ In k (ids c).
Proof.
  intros k c Hnone Hin.
  apply in_map_iff in Hin as (item & Hk & Hitem).
  unfold findById in Hnone.
  apply (find_none _ _ Hnone) in Hitem.
  rewrite Hk, String.eqb_refl in Hitem. discriminate.
Qed.

Lemma not_in_findById_none : forall k c,
  ~ In k (ids c) -> findById k c = None.
Proof.
  intros k c Hnot. unfold findById.
  destruct (find _ c) as [item|] eqn:Hfind; [|reflexivity].
  apply find_some in Hfind as (Hin & Heq).
  apply String.eqb_eq in Heq. exfalso. apply Hnot.
  rewrite <- Heq. now apply in_map.
Qed.

(** Rewriting the quantity of some items leaves the ids as they were. *)
Lemma ids_map_quantity : forall (test : CartItem -> bool) (f : CartItem -> Z) c,
  ids (map (fun item => if test item then withQuantity item (f item) else item) c)
  = ids c.
Proof.
  intros test f c. unfold ids. rewrite map_map.
  apply map_ext. intros item. now destruct (test item).
Qed.

Lemma ids_filter_NoDup : forall (test : CartItem -> bool) c,
  NoDup (ids c) -> NoDup (ids (filter test c)).
Proof.
  intros test c. induction c as [|item c IH]; simpl; intros Hnd; [constructor|].
  inversion Hnd as [|? ? Hnotin Hnd']; subst.
  destruct (test item); simpl; [constructor|]; auto.
  intros Hin. apply Hnotin.
  apply in_map_iff in Hin as (x & Hx & Hxin).
  apply filter_In in Hxin as [Hxin _].
  rewrite <- Hx. now apply in_map.
Qed.

(** No operation, whatever its arguments, ever duplicates an id. *)
Lemma perform_NoDup : forall op c,
  NoDup (ids c) -> NoDup (ids (perform c op)).
Proof.
  intros [p q|k|k q|] c Hnd; unfold perform; simpl.
  - unfold addItem.
    destruct (findById (id p) c) eqn:Hfind; simpl.
    + now rewrite (ids_map_quantity _ (fun item => quantity item + q)).
    + unfold ids. rewrite map_app. simpl.
      apply NoDup_app; [assumption | repeat constructor; intros [] |].
      intros x Hx [Hx'|[]]. subst x.
      now apply (findById_none_not_in _ _ Hfind).
  - now apply ids_filter_NoDup.
  - unfold updateQuantity. destruct (q <=? 0); simpl.
    + now apply ids_filter_NoDup.
    + now rewrite (ids_map_quantity _ (fun _ => q)).
  - constructor.
Qed.

Lemma perform_quantities : forall op c,
  adds_at_least_one op ->
  Forall (fun item => 1 <= quantity item) c ->
  Forall (fun item => 1 <= quantity item) (perform c op).
Proof.
  intros [p q|k|k q|] c Hq Hc; unfold perform; simpl in *.
  - unfold addItem. destruct (findById (id p) c); simpl.
    + apply Forall_map. eapply Forall_impl; [|exact Hc].
      intros item Hitem. simpl in Hitem.
      destruct (pid item =? id p)%string; simpl; lia.
    + apply Forall_app. split; [assumption|].
      constructor; [simpl; lia | constructor].
  - apply Forall_forall. intros item Hin.
    apply filter_In in Hin as [Hin _].
    now apply (proj1 (Forall_forall _ _) Hc).
  - unfold updateQuantity. destruct (q <=? 0) eqn:Hle; simpl.
    + apply Forall_forall. intros item Hin.
      apply filter_In in Hin as [Hin _].
      now apply (proj1 (Forall_forall _ _) Hc).
    + apply Z.leb_gt in Hle.
      apply Forall_map. eapply Forall_impl; [|exact Hc].
      intros item Hitem. simpl in Hitem.
      destruct (pid item =? k)%string; simpl; lia.
  - constructor.
Qed.

Lemma fold_perform_well_formed : forall ops c,
  Forall adds_at_least_one ops ->
  well_formed c -> well_formed (fold_left perform ops c).
Proof.
  induction ops as [|op ops IH]; simpl; intros c Hops Hc; [assumption|].
  inversion Hops; subst.
  apply IH; [assumption|].
  destruct Hc as [Hq Hnd]. split.
  - now apply perform_quantities.
  - now apply perform_NoDup.
Qed.

(** What does hold of the store: as long as every [addItem] adds at least
    one unit, every state reached keeps quantities at least one and ids
    unique. *)
Lemma run_ops_well_formed : forall ops,
  Forall adds_at_least_one ops -> well_formed (run_ops ops).
Proof.
  intros ops Hops. apply fold_perform_well_formed; [assumption|].
  split; constructor.
Qed.

(** Uniqueness of ids needs no assumption on the arguments. *)
Lemma reachable_ids_unique : forall c, reachable c -> NoDup (ids c).
Proof.
  intros c [ops <-]. unfold run_ops.
  assert (H : forall ops c0, NoDup (ids c0) ->
                             NoDup (ids (fold_left perform ops c0))).
  { clear. induction ops as [|op ops IH]; simpl; intros c0 H0; [assumption|].
    apply IH. now apply perform_NoDup. }
  apply H. constructor.
Qed.

(** C1. The claim is that every state reachable through [addItem],
    [removeItem], [updateQuantity] and [clearCart] has quantities at least
    one and unique ids. [addItem] does not look at its quantity:
    [addItem(shirt, 0)] on the empty store is a reachable state holding an
    item of quantity 0, and the invariant fails there. *)
Theorem addItem_zero_breaks_invariant :
  run_ops [AddItem shirt 0] = [mkCartItem shirt 0]
  /\ reachable [mkCartItem shirt 0]
  /\ ~ well_formed [mkCartItem shirt 0].
Proof.
  split; [reflexivity|]. split.
  - exists [AddItem shirt 0]. reflexivity.
  - intros [Hq _]. inversion Hq as [|? ? H1 _]; subst. simpl in H1. lia.
Qed.

(** A negative amount on an item already in the cart does the same. *)
Lemma addItem_negative_breaks_invariant :
  run_ops [AddItem shirt 2; AddItem shirt (-5)] = [mkCartItem shirt (-3)].
Proof. reflexivity. Qed.

(** C10. For a quantity of at least one and an id that is not in the cart,
    [updateQuantity] returns the cart as it was (and raises no toast):
    nothing is inserted and no item is modified. *)
Theorem updateQuantity_absent_id_unchanged : forall k q c,
  1 <= q -> ~ In k (ids c) -> updateQuantity k q c = (c, []).
Proof.
  intros k q c Hq Hnot. unfold updateQuantity.
  destruct (q <=? 0) eqn:Hle; [apply Z.leb_le in Hle; lia|].
  f_equal.
  induction c as [|item c IH]; simpl; [reflexivity|].
  simpl in Hnot.
  destruct (pid item =? k)%string eqn:Heq.
  - apply String.eqb_eq in Heq. exfalso. apply Hnot. now left.
  - f_equal. apply IH. intros Hin. apply Hnot. now right.
Qed.

Lemma updateQuantity_absent_id_unchanged_witness :
  updateQuantity "B" 3 [mkCartItem shirt 2] = ([mkCartItem shirt 2], []).
Proof.
  apply (updateQuantity_absent_id_unchanged "B" 3 [mkCartItem shirt 2]).
  - lia.
  - simpl. intros [H|[]]. discriminate H.
Defined.

End CartStoreFacts.

(** ** JS maps and mergeCarts *)

Section MapFacts.

Implicit Types (m : JsMap) (c : Cart) (item v : CartItem) (k : string).

Lemma Map_get_set : forall m k v k',
  Map_get (Map_set m k v) k'
  = if (k =? k')%string then Some v else Map_get m k'.
Proof.
  induction m as [|[k0 v0] m IH]; intros k v k'; simpl.
  - reflexivity.
  - destruct (k0 =? k)%string eqn:H0; simpl.
    + apply String.eqb_eq in H0. subst k0.
      now destruct (k =? k')%string.
    + rewrite IH.
      destruct (k0 =? k')%string eqn:H1; [|reflexivity].
      apply String.eqb_eq in H1. subst k0.
      now rewrite String.eqb_sym, H0.
Qed.

Lemma Map_get_none_keys : forall m k,
  Map_get m k = None <-> ~ In k (Map_keys m).
Proof.
  induction m as [|[k0 v0] m IH]; intros k; simpl.
  - tauto.
  - destruct (k0 =? k)%string eqn:H0.
    + apply String.eqb_eq in H0. split; [discriminate | intros H; tauto].
    + apply String.eqb_neq in H0. rewrite IH. tauto.
Qed.

Lemma Map_keys_set : forall m k v,
  Map_keys (Map_set m k v)
  = if Map_has m k then Map_keys m else (Map_keys m ++ [k])%list.
Proof.
  unfold Map_has.
  induction m as [|[k0 v0] m IH]; intros k v; simpl.
  - reflexivity.
  - destruct (k0 =? k)%string eqn:H0; simpl.
    + apply String.eqb_eq in H0. now subst.
    + rewrite IH. now destruct (Map_get m k).
Qed.

Lemma Map_set_entries : forall m k v,
  Forall (fun entry => pid (snd entry) = fst entry) m ->
  pid v = k ->
  Forall (fun entry => pid (snd entry) = fst entry) (Map_set m k v).
Proof.
  induction m as [|[k0 v0] m IH]; intros k v Hm Hv; simpl.
  - now repeat constructor.
  - apply Forall_cons_iff in Hm as [Hhd Htl].
    destruct (k0 =? k)%string; constructor; auto.
Qed.

Lemma Map_set_keyed : forall m k v,
  keyed m -> pid v = k -> keyed (Map_set m k v).
Proof.
  intros m k v [Hentries Hnd] Hv. split.
  - now apply Map_set_entries.
  - rewrite Map_keys_set. unfold Map_has.
    destruct (Map_get m k) eqn:Hget; [assumption|].
    apply NoDup_app; [assumption | repeat constructor; intros [] |].
    intros x Hx [Hx'|[]]. subst x.
    now apply (proj1 (Map_get_none_keys m k)).
Qed.

Lemma Map_get_keyed : forall m k v,
  keyed m -> Map_get m k = Some v -> pid v = k.
Proof.
  intros m k v [Hentries _]. revert k v.
  induction Hentries as [|[k0 v0] m H0 _ IH]; intros k v; simpl.
  - discriminate.
  - destruct (k0 =? k)%string eqn:Hk.
    + apply String.eqb_eq in Hk. intros [= <-]. simpl in H0. congruence.
    + apply IH.
Qed.

Lemma ids_Map_values : forall m,
  keyed m -> ids (Map_values m) = Map_keys m.
Proof.
  intros m [Hentries _]. unfold ids, Map_values, Map_keys.
  rewrite map_map. apply map_ext_Forall.
  eapply Forall_impl; [|exact Hentries]. now intros [k v].
Qed.

Lemma findById_Map_values : forall m k,
  keyed m -> findById k (Map_values m) = Map_get m k.
Proof.
  intros m k [Hentries _].
  induction Hentries as [|[k0 v0] m H0 _ IH]; simpl; [reflexivity|].
  simpl in H0. unfold findById in *. simpl. rewrite H0.
  now destruct (k0 =? k)%string.
Qed.

(** [arr.forEach(item => map.set(item.product.id, item))] on an array with
    unique ids: each id reads back its own item. *)
Lemma Map_get_setAll : forall c m k,
  NoDup (ids c) ->
  Map_get (fold_left (fun m item => Map_set m (pid item) item) c m) k
  = match findById k c with
    | Some item => Some item
    | None => Map_get m k
    end.
Proof.
  induction c as [|item c IH]; intros m k Hnd; simpl; [reflexivity|].
  inversion Hnd as [|? ? Hnotin Hnd']; subst.
  rewrite IH by assumption. unfold findById at 2. simpl. fold (findById k c).
  rewrite Map_get_set.
  destruct (pid item =? k)%string eqn:Hk.
  - apply String.eqb_eq in Hk. subst k.
    now rewrite (not_in_findById_none _ _ Hnotin).
  - reflexivity.
Qed.

Lemma setAll_keyed : forall c m,
  keyed m -> keyed (fold_left (fun m item => Map_set m (pid item) item) c m).
Proof.
  induction c as [|item c IH]; intros m Hm; simpl; [assumption|].
  apply IH. now apply Map_set_keyed.
Qed.

(** On unique ids the map keeps the entries in the order of the array. *)
Lemma setAll_entries : forall c m,
  NoDup (Map_keys m ++ ids c) ->
  fold_left (fun m item => Map_set m (pid item) item) c m
  = (m ++ map (fun item => (pid item, item)) c)%list.
Proof.
  induction c as [|item c IH]; intros m Hnd; simpl.
  - now rewrite app_nil_r.
  - assert (Hset : Map_set m (pid item) item = (m ++ [(pid item, item)])%list).
    { simpl in Hnd. apply NoDup_remove_2 in Hnd.
      assert (Hm : ~ In (pid item) (Map_keys m))
        by (intros H; apply Hnd; apply in_or_app; now left).
      clear -Hm. induction m as [|[k0 v0] m IHm]; simpl; [reflexivity|].
      simpl in Hm. destruct (k0 =? pid item)%string eqn:Hk.
      - apply String.eqb_eq in Hk. tauto.
      - f_equal. apply IHm. tauto. }
    rewrite Hset, IH.
    + now rewrite <- app_assoc.
    + unfold Map_keys. rewrite map_app. simpl.
      rewrite <- app_assoc. exact Hnd.
Qed.

Lemma mapByProductId_entries : forall c,
  NoDup (ids c) ->
  mapByProductId c = map (fun item => (pid item, item)) c.
Proof.
  intros c Hnd. unfold mapByProductId. now rewrite setAll_entries.
Qed.

Lemma mapByProductId_get : forall c k,
  NoDup (ids c) -> Map_get (mapByProductId c) k = findById k c.
Proof.
  intros c k Hnd. unfold mapByProductId. rewrite Map_get_setAll by assumption.
  now destruct (findById k c).
Qed.

Lemma absorb_keyed : forall m item, keyed m -> keyed (absorb m item).
Proof.
  intros m item Hm. unfold absorb.
  destruct (Map_get m (pid item)) as [existing|] eqn:Hget.
  - apply Map_set_keyed; [assumption|].
    unfold pid, withQuantity. simpl.
    exact (Map_get_keyed _ _ _ Hm Hget).
  - now apply Map_set_keyed.
Qed.

Lemma absorbAll_keyed : forall c m,
  keyed m -> keyed (fold_left absorb c m).
Proof.
  induction c as [|item c IH]; intros m Hm; simpl; [assumption|].
  apply IH. now apply absorb_keyed.
Qed.

Lemma Map_get_absorbAll : forall c m k,
  NoDup (ids c) ->
  Map_get (fold_left absorb c m) k
  = match findById k c with
    | Some item =>
        Some match Map_get m k with
             | Some existing =>
                 withQuantity existing (quantity existing + quantity item)
             | None => item
             end
    | None => Map_get m k
    end.
Proof.
  induction c as [|item c IH]; intros m k Hnd; simpl; [reflexivity|].
  inversion Hnd as [|? ? Hnotin Hnd']; subst.
  rewrite IH by assumption. unfold findById at 2. simpl. fold (findById k c).
  destruct (pid item =? k)%string eqn:Hk.
  - apply String.eqb_eq in Hk. subst k.
    rewrite (not_in_findById_none _ _ Hnotin).
    unfold absorb.
    destruct (Map_get m (pid item)); now rewrite Map_get_set, String.eqb_refl.
  - assert (Hsame : Map_get (absorb m item) k = Map_get m k).
    { unfold absorb.
      destruct (Map_get m (pid item)); now rewrite Map_get_set, Hk. }
    now rewrite Hsame.
Qed.

Lemma in_ids_findById : forall k c,
  In k (ids c) <-> findById k c <> None.
Proof.
  intros k c. split.
  - intros Hin Hnone. now apply (findById_none_not_in _ _ Hnone).
  - intros Hsome. destruct (in_dec string_dec k (ids c)) as [|Hnot]; [assumption|].
    now apply not_in_findById_none in Hnot.
Qed.

End MapFacts.

Section MergeFacts.

Lemma mergeCarts_unfold : forall cartA cartB,
  mergeCarts cartA cartB
  = Map_values
      (fold_left absorb cartB
         (fold_left (fun m item => Map_set m (pid item) item) cartA [])).
Proof. reflexivity. Qed.

Lemma mergeCarts_keyed : forall cartA cartB,
  keyed (fold_left absorb cartB
           (fold_left (fun m item => Map_set m (pid item) item) cartA [])).
Proof.
  intros. apply absorbAll_keyed, setAll_keyed. split; constructor.
Qed.

Lemma findById_mergeCarts : forall cartA cartB k,
  NoDup (ids cartA) -> NoDup (ids cartB) ->
  findById k (mergeCarts cartA cartB)
  = match findById k cartA, findById k cartB with
    | Some a, Some b => Some (withQuantity a (quantity a + quantity b))
    | Some a, None => Some a
    | None, Some b => Some b
    | None, None => None
    end.
Proof.
  intros cartA cartB k HA HB.
  rewrite mergeCarts_unfold, findById_Map_values by apply mergeCarts_keyed.
  rewrite Map_get_absorbAll, Map_get_setAll by assumption. simpl.
  destruct (findById k cartA), (findById k cartB); reflexivity.
Qed.

(** C6. [mergeCarts] is additive on carts keyed by product id: the merged
    cart has each id once, its ids are those of either cart, a shared id
    carries the sum of both quantities and any other id its own; and the
    guest cart {A:2, B:1} merged with the server cart {B:3, C:1} is
    {A:2, B:4, C:1}, and the same three entries in the order B, C, A when
    the server cart comes first. *)
Theorem mergeCarts_additive : forall cartA cartB,
  NoDup (ids cartA) -> NoDup (ids cartB) ->
  NoDup (ids (mergeCarts cartA cartB))
  /\ (forall k, In k (ids (mergeCarts cartA cartB))
                <-> In k (ids cartA) \/ In k (ids cartB))
  /\ (forall k, quantityOf (mergeCarts cartA cartB) k
                = match quantityOf cartA k, quantityOf cartB k with
                  | Some a, Some b => Some (a + b)
                  | Some a, None => Some a
                  | None, Some b => Some b
                  | None, None => None
                  end)
  /\ mergeCarts [mkCartItem shirt 2; mkCartItem jeans 1]
                [mkCartItem jeans 3; mkCartItem cap 1]
     = [mkCartItem shirt 2; mkCartItem jeans 4; mkCartItem cap 1]
  /\ mergeCarts [mkCartItem jeans 3; mkCartItem cap 1]
                [mkCartItem shirt 2; mkCartItem jeans 1]
     = [mkCartItem jeans 4; mkCartItem cap 1; mkCartItem shirt 2].
Proof.
  intros cartA cartB HA HB. repeat split.
  - rewrite mergeCarts_unfold, ids_Map_values by apply mergeCarts_keyed.
    apply mergeCarts_keyed.
  - intros H. apply in_ids_findById in H.
    rewrite findById_mergeCarts in H by assumption.
    destruct (findById k cartA) eqn:Ea; [left|right];
      apply in_ids_findById; [congruence|].
    destruct (findById k cartB); congruence.
  - intros H. apply in_ids_findById.
    rewrite findById_mergeCarts by assumption.
    destruct H as [H|H]; apply in_ids_findById in H;
      destruct (findById k cartA), (findById k cartB); congruence.
  - intros k. unfold quantityOf.
    rewrite findById_mergeCarts by assumption.
    destruct (findById k cartA), (findById k cartB); reflexivity.
Qed.

Lemma mergeCarts_additive_witness :
  quantityOf (mergeCarts [mkCartItem shirt 2; mkCartItem jeans 1]
                         [mkCartItem jeans 3; mkCartItem cap 1]) "B"
  = Some 4.
Proof.
  pose proof (mergeCarts_additive
                [mkCartItem shirt 2; mkCartItem jeans 1]
                [mkCartItem jeans 3; mkCartItem cap 1]) as H.
  assert (HA : NoDup (ids [mkCartItem shirt 2; mkCartItem jeans 1])).
  { simpl. repeat constructor; simpl; intuition discriminate. }
  assert (HB : NoDup (ids [mkCartItem jeans 3; mkCartItem cap 1])).
  { simpl. repeat constructor; simpl; intuition discriminate. }
  destruct (H HA HB) as (_ & _ & Hq & _).
  rewrite Hq. reflexivity.
Defined.

End MergeFacts.

(** ** Running the monad *)

Section RunFacts.

Lemma log_nil : forall w, log [] w = w.
Proof. intros [s a c p evs]. unfold log. simpl. now rewrite app_nil_r. Qed.

Lemma log_log : forall evs1 evs2 w,
  log evs2 (log evs1 w) = log (evs1 ++ evs2) w.
Proof. intros. unfold log. simpl. now rewrite app_assoc. Qed.

Lemma requests_app : forall evs1 evs2,
  requests (evs1 ++ evs2) = (requests evs1 ++ requests evs2)%list.
Proof. intros. unfold requests. apply flat_map_app. Qed.

Lemma toasts_app : forall evs1 evs2,
  toasts (evs1 ++ evs2) = (toasts evs1 ++ toasts evs2)%list.
Proof. intros. unfold toasts. apply flat_map_app. Qed.

Lemma skipn_length_app : forall {A} (l1 l2 : list A),
  skipn (List.length l1) (l1 ++ l2) = l2.
Proof. intros A l1 l2. now rewrite skipn_app, skipn_all, Nat.sub_diag. Qed.

Lemma bindE_ok : forall {A B} (m : App (Result A)) (k : A -> App (Result B))
  w a w',
  m w = (Ok a, w') -> bindE m k w = k a w'.
Proof. intros A B m k w a w' H. unfold bindE, bind. now rewrite H. Qed.

Lemma emit_run : forall e w, emit e w = (tt, log [e] w).
Proof. reflexivity. Qed.

Lemma includes_examples :
  includes "401 Unauthorized" "Unauthorized" = true
  /\ includes "Failed to fetch" "Unauthorized" = false
  /\ includes "Unauthorized" "" = true.
Proof. repeat split. Qed.

(** A call to a backend that answers fulfils, and it issues that one
    request, whatever the status of the answer. *)
Lemma apiRequest_answers : forall server r w,
  answers server ->
  exists value evs,
    apiRequest server r w = (Ok value, log evs w)
    /\ requests evs = [r] /\ toasts evs = [].
Proof.
  intros server r w Hs.
  destruct (Hs (List.length (requests (events w))) r)
    as (response & value & Hfetch & Hjson).
  unfold apiRequest, fetch, bind, gets, emit, modify, ret. simpl.
  rewrite Hfetch. unfold when, console, emit, modify, ret. rewrite Hjson.
  destruct (status response =? 401).
  - exists value, [Requested r; Console "Unauthorized: Token may be missing or invalid"].
    split; [|split; reflexivity]. unfold log. simpl. now rewrite <- app_assoc.
  - exists value, [Requested r]. repeat split; reflexivity.
Qed.

Lemma raise_run : forall ts w, raise ts w = (tt, log (map Toasted ts) w).
Proof.
  unfold raise. induction ts as [|t ts IH]; intros w; simpl.
  - unfold ret. now rewrite log_nil.
  - unfold bind, toast. rewrite emit_run, IH. now rewrite log_log.
Qed.

End RunFacts.

(** Runs the monadic glue and the field updates, leaving the data alone. *)
Ltac run_app :=
  cbv beta iota zeta delta
    [bind bindE gets modify ret when log
     on_storage on_auth on_cart setIsProcessing emit toast navigate console
     store_cart store_cartMerged store_checkoutComplete store_authTokens
     store_user setUser setLastRefreshAttempt setRefreshTimer
     setItems set_syncingRef set_initialLoadRef set_lastSyncedItemsRef
     set_debounceTimeout
     localStorage authProvider cartProvider isProcessing events
     cart_key cartMerged_key checkoutComplete_key authTokens_key user_key
     user lastRefreshAttempt refreshTimer
     items syncingRef initialLoadRef lastSyncedItemsRef debounceTimeout
     isAuthenticated negb fst snd].

(** Case analysis on the first test the computation is waiting for. *)
Ltac break_on x :=
  let T := type of x in
  lazymatch T with
  | World => fail
  | Storage => fail
  | AuthProvider => fail
  | CartProvider => fail
  | Response => fail
  | prod _ _ => fail
  | _ => destruct x eqn:?
  end.

Ltac break_match :=
  match goal with
  | |- context [match ?x with _ => _ end] => break_on x
  | H : context [match ?x with _ => _ end] |- _ => break_on x
  end.
(** ** The sync cycle *)

Section SyncFacts.

Variable server : Server.

Lemma removedLoop_answers :
  answers server ->
  forall entries currentMap w,
  exists evs,
    removedLoop server entries currentMap w = (Ok tt, log evs w)
    /\ requests evs = flat_map (removal currentMap) entries
    /\ toasts evs = [].
Proof.
  intros Hs. induction entries as [|[k v] rest IH]; intros currentMap w.
  - exists []. simpl. unfold ret. now rewrite log_nil.
  - simpl. unfold removal at 1. simpl fst.
    destruct (negb (Map_has currentMap k)).
    + destruct (apiRequest_answers server
                  (ordersService_removeItemFromCart k)
                  (log [Console "Removing item from backend cart:"] w) Hs)
        as (value & evs1 & Hcall & Hreq1 & Hquiet1).
      destruct (IH currentMap
                  (log (Console "Removing item from backend cart:" :: evs1) w))
        as (evs2 & Hrest & Hreq2 & Hquiet2).
      exists ((Console "Removing item from backend cart:" :: evs1) ++ evs2)%list.
      split; [|split].
      * unfold bindE at 1. unfold bind at 1. unfold bind at 1.
        unfold console. rewrite emit_run.
        rewrite (bindE_ok _ _ _ _ _ Hcall). unfold ret at 1.
        rewrite log_log. simpl app. rewrite Hrest. now rewrite log_log.
      * rewrite requests_app. simpl. now rewrite Hreq1, Hreq2.
      * rewrite toasts_app. simpl. now rewrite Hquiet1, Hquiet2.
    + destruct (IH currentMap w) as (evs2 & Hrest & Hreq2 & Hquiet2).
      exists evs2. split; [|split; assumption].
      unfold bindE, bind, ret. exact Hrest.
Qed.

Lemma changedLoop_answers :
  answers server ->
  forall entries lastMap w,
  exists evs,
    changedLoop server entries lastMap w = (Ok tt, log evs w)
    /\ requests evs = flat_map (change lastMap) entries
    /\ toasts evs = [].
Proof.
  intros Hs. induction entries as [|[k v] rest IH]; intros lastMap w.
  - exists []. simpl. unfold ret. now rewrite log_nil.
  - simpl. unfold change at 1. simpl fst. simpl snd.
    destruct (Map_get lastMap k) as [lastItem|].
    + destruct (negb (quantity lastItem =? quantity v)).
      * destruct (apiRequest_answers server
                    (ordersService_updateItemQuantity k (quantity v))
                    (log [Console "Updating item quantity in backend cart:"] w)
                    Hs)
          as (value & evs1 & Hcall & Hreq1 & Hquiet1).
        destruct (IH lastMap
                    (log (Console "Updating item quantity in backend cart:"
                            :: evs1) w))
          as (evs2 & Hrest & Hreq2 & Hquiet2).
        exists ((Console "Updating item quantity in backend cart:" :: evs1)
                  ++ evs2)%list.
        split; [|split].
        -- unfold bindE at 1. unfold bind at 1. unfold bind at 1.
           unfold console. rewrite emit_run.
           rewrite (bindE_ok _ _ _ _ _ Hcall). unfold ret at 1.
           rewrite log_log. simpl app. rewrite Hrest. now rewrite log_log.
        -- rewrite requests_app. simpl. now rewrite Hreq1, Hreq2.
        -- rewrite toasts_app. simpl. now rewrite Hquiet1, Hquiet2.
      * destruct (IH lastMap w) as (evs2 & Hrest & Hreq2 & Hquiet2).
        exists evs2. split; [|split; assumption].
        unfold bindE, bind, ret. exact Hrest.
    + destruct (apiRequest_answers server
                  (ordersService_addItemToCart k (quantity v))
                  (log [Console "Adding item to backend cart:"] w) Hs)
        as (value & evs1 & Hcall & Hreq1 & Hquiet1).
      destruct (IH lastMap
                  (log (Console "Adding item to backend cart:" :: evs1) w))
        as (evs2 & Hrest & Hreq2 & Hquiet2).
      exists ((Console "Adding item to backend cart:" :: evs1) ++ evs2)%list.
      split; [|split].
      * unfold bindE at 1. unfold bind at 1. unfold bind at 1.
        unfold console. rewrite emit_run.
        rewrite (bindE_ok _ _ _ _ _ Hcall). unfold ret at 1.
        rewrite log_log. simpl app. rewrite Hrest. now rewrite log_log.
      * rewrite requests_app. simpl. now rewrite Hreq1, Hreq2.
      * rewrite toasts_app. simpl. now rewrite Hquiet1, Hquiet2.
Qed.

(** The world a cycle leaves behind when every call fulfils: the baseline
    is the cart the cycle was started with, the single-flight flag is down,
    nothing else has changed, and the requests are those of the two loops. *)
Lemma syncCartToBackend_answers :
  answers server ->
  forall currentItems w,
  exists evs,
    syncCartToBackend server currentItems w
    = (tt,
       mkWorld (localStorage w) (authProvider w)
         (mkCartProvider (items (cartProvider w)) false
            (initialLoadRef (cartProvider w)) currentItems
            (debounceTimeout (cartProvider w)))
         (isProcessing w) (events w ++ evs)%list)
    /\ requests evs
       = (flat_map (removal (mapByProductId currentItems))
            (mapByProductId (lastSyncedItemsRef (cartProvider w)))
          ++ flat_map (change (mapByProductId
                                 (lastSyncedItemsRef (cartProvider w))))
               (mapByProductId currentItems))%list
    /\ toasts evs = [].
Proof.
  intros Hs currentItems w.
  set (lastMap := mapByProductId (lastSyncedItemsRef (cartProvider w))).
  set (currentMap := mapByProductId currentItems).
  set (start := [Console "Syncing cart to backend. Last synced items:";
                 Console "Current items:"]).
  destruct (removedLoop_answers Hs lastMap currentMap (log start w))
    as (evs1 & Hrem & Hreq1 & Hquiet1).
  destruct (changedLoop_answers Hs currentMap lastMap
              (log (start ++ evs1) w))
    as (evs2 & Hchg & Hreq2 & Hquiet2).
  exists ((start ++ evs1) ++ evs2)%list. split; [|split].
  - unfold syncCartToBackend.
    unfold bind at 1. unfold bind at 1. unfold gets at 1.
    unfold bind at 1. unfold console at 1. rewrite emit_run.
    unfold bind at 1. unfold console at 1. rewrite emit_run.
    rewrite log_log. simpl app.
    fold lastMap. fold currentMap. fold start.
    rewrite (bindE_ok _ _ _ _ _ Hrem).
    rewrite log_log.
    rewrite (bindE_ok _ _ _ _ _ Hchg).
    rewrite log_log.
    reflexivity.
  - rewrite !requests_app. simpl. now rewrite Hreq1, Hreq2.
  - rewrite !toasts_app. simpl. now rewrite Hquiet1, Hquiet2.
Qed.

End SyncFacts.
(** ** The diff of a cycle *)

Section DiffFacts.

Implicit Types (c baseline current : Cart) (k : string) (r : Request).

Lemma findById_in : forall c item,
  NoDup (ids c) -> In item c -> findById (pid item) c = Some item.
Proof.
  induction c as [|x c IH]; intros item Hnd Hin; [contradiction|].
  inversion Hnd as [|? ? Hnotin Hnd']; subst.
  unfold findById. simpl. fold (findById (pid item) c).
  destruct Hin as [->|Hin].
  - now rewrite String.eqb_refl.
  - destruct (pid x =? pid item)%string eqn:Hk.
    + apply String.eqb_eq in Hk. exfalso. apply Hnotin.
      rewrite Hk. now apply in_map.
    + now apply IH.
Qed.

Lemma findById_some : forall c k item,
  findById k c = Some item -> In item c /\ pid item = k.
Proof.
  intros c k item H. unfold findById in H.
  apply find_some in H as [Hin Hk]. now apply String.eqb_eq in Hk.
Qed.

Lemma Map_has_mapByProductId : forall c k,
  NoDup (ids c) ->
  Map_has (mapByProductId c) k = false <-> ~ In k (ids c).
Proof.
  intros c k Hnd. unfold Map_has. rewrite mapByProductId_get by assumption.
  rewrite in_ids_findById. destruct (findById k c); split; intros H;
    try discriminate; try reflexivity; try congruence.
  now contradiction H.
Qed.

Lemma keys_mapByProductId : forall c,
  NoDup (ids c) -> Map_keys (mapByProductId c) = ids c.
Proof.
  intros c Hnd. rewrite mapByProductId_entries by assumption.
  unfold Map_keys, ids. rewrite map_map. reflexivity.
Qed.

(** Pieces that each speak of the key of their own entry only, over
    entries with distinct keys, never repeat a request. *)
Lemma NoDup_flat_map_keyed : forall (f : string * CartItem -> list Request),
  (forall e r, In r (f e) -> target r = Some (fst e)) ->
  (forall e, NoDup (f e)) ->
  forall entries, NoDup (Map_keys entries) -> NoDup (flat_map f entries).
Proof.
  intros f Htarget Hpiece.
  induction entries as [|e entries IH]; simpl; intros Hnd; [constructor|].
  inversion Hnd as [|? ? Hnotin Hnd']; subst.
  apply NoDup_app; [apply Hpiece | now apply IH |].
  intros r Hr Hr'. apply in_flat_map in Hr' as (e' & He' & Hr').
  apply Htarget in Hr, Hr'. apply Hnotin.
  assert (fst e = fst e') as -> by congruence.
  now apply in_map.
Qed.

Lemma removal_target : forall currentMap e r,
  In r (removal currentMap e) -> target r = Some (fst e) /\ is_removal r = true.
Proof.
  intros currentMap e r. unfold removal.
  destruct (negb (Map_has currentMap (fst e))); simpl; [|contradiction].
  intros [<-|[]]. now split.
Qed.

Lemma change_target : forall lastMap e r,
  In r (change lastMap e) -> target r = Some (fst e) /\ is_removal r = false.
Proof.
  intros lastMap e r. unfold change.
  destruct (Map_get lastMap (fst e)) as [lastItem|].
  - destruct (negb (quantity lastItem =? quantity (snd e))); simpl;
      [|contradiction].
    intros [<-|[]]. now split.
  - simpl. intros [<-|[]]. now split.
Qed.

Lemma removal_NoDup : forall currentMap e, NoDup (removal currentMap e).
Proof.
  intros. unfold removal. destruct (negb _); repeat constructor; intros [].
Qed.

Lemma change_NoDup : forall lastMap e, NoDup (change lastMap e).
Proof.
  intros. unfold change. destruct (Map_get _ _).
  - destruct (negb _); repeat constructor; intros [].
  - repeat constructor; intros [].
Qed.

Lemma diff_requests_NoDup : forall baseline current,
  NoDup (ids baseline) -> NoDup (ids current) ->
  NoDup (diff_requests baseline current).
Proof.
  intros baseline current Hb Hc. unfold diff_requests.
  apply NoDup_app.
  - apply NoDup_flat_map_keyed.
    + intros e r Hr. now apply removal_target in Hr.
    + apply removal_NoDup.
    + now rewrite keys_mapByProductId.
  - apply NoDup_flat_map_keyed.
    + intros e r Hr. now apply change_target in Hr.
    + apply change_NoDup.
    + now rewrite keys_mapByProductId.
  - intros r Hr Hr'.
    apply in_flat_map in Hr as (e & _ & Hr).
    apply in_flat_map in Hr' as (e' & _ & Hr').
    apply removal_target in Hr as [_ Hr].
    apply change_target in Hr' as [_ Hr']. congruence.
Qed.

Lemma diff_requests_planned : forall baseline current r,
  NoDup (ids baseline) -> NoDup (ids current) ->
  In r (diff_requests baseline current) <-> planned baseline current r.
Proof.
  intros baseline current r Hb Hc. unfold diff_requests.
  rewrite in_app_iff, !in_flat_map.
  rewrite !mapByProductId_entries by assumption.
  split.
  - intros [(e & He & Hr)|(e & He & Hr)];
      apply in_map_iff in He as (item & <- & Hitem).
    + left. unfold removal in Hr. simpl in Hr.
      destruct (Map_has _ (pid item)) eqn:Hhas; simpl in Hr; [contradiction|].
      destruct Hr as [<-|[]]. exists (pid item). split; [reflexivity|]. split.
      * now apply in_map.
      * rewrite <- mapByProductId_entries in Hhas by assumption.
        now apply Map_has_mapByProductId in Hhas.
    + right. unfold change in Hr. simpl in Hr.
      rewrite <- mapByProductId_entries in Hr by assumption.
      rewrite mapByProductId_get in Hr by assumption.
      assert (Hq : quantityOf current (pid item) = Some (quantity item)).
      { unfold quantityOf. now rewrite findById_in. }
      destruct (findById (pid item) baseline) as [lastItem|] eqn:Hlast.
      * right.
        destruct (quantity lastItem =? quantity item) eqn:Hsame; simpl in Hr;
          [contradiction|].
        destruct Hr as [<-|[]].
        exists (pid item), (quantity item), (quantity lastItem).
        repeat split; [assumption | |].
        -- unfold quantityOf. now rewrite Hlast.
        -- now apply Z.eqb_neq in Hsame.
      * left. destruct Hr as [<-|[]].
        exists (pid item), (quantity item).
        repeat split; [assumption|].
        now apply findById_none_not_in.
  - intros [(k & -> & Hin & Hnot)
           |[(k & q & -> & Hq & Hnot)|(k & q & q0 & -> & Hq & Hq0 & Hne)]].
    + left. apply in_map_iff in Hin as (item & <- & Hitem).
      exists (pid item, item). split; [apply in_map_iff; now exists item|].
      unfold removal. simpl.
      rewrite <- mapByProductId_entries by assumption.
      apply (Map_has_mapByProductId current) in Hnot; [|assumption].
      rewrite Hnot. now left.
    + right. unfold quantityOf in Hq.
      destruct (findById k current) as [item|] eqn:Hfind; [|discriminate].
      injection Hq as <-.
      apply findById_some in Hfind as [Hitem <-].
      exists (pid item, item). split; [apply in_map_iff; now exists item|].
      unfold change. simpl.
      rewrite <- mapByProductId_entries by assumption.
      rewrite mapByProductId_get by assumption.
      rewrite (not_in_findById_none _ _ Hnot). now left.
    + right. unfold quantityOf in Hq, Hq0.
      destruct (findById k current) as [item|] eqn:Hfind; [|discriminate].
      injection Hq as <-.
      apply findById_some in Hfind as [Hitem <-].
      destruct (findById (pid item) baseline) as [lastItem|] eqn:Hlast;
        [|discriminate].
      injection Hq0 as <-.
      exists (pid item, item). split; [apply in_map_iff; now exists item|].
      unfold change. simpl.
      rewrite <- mapByProductId_entries by assumption.
      rewrite mapByProductId_get by assumption.
      rewrite Hlast.
      apply Z.eqb_neq in Hne. rewrite Hne. now left.
Qed.

Lemma issued_by_syncCartToBackend : forall server current w,
  answers server ->
  issued_by (syncCartToBackend server current) w
  = diff_requests (lastSyncedItemsRef (cartProvider w)) current
  /\ raised_by (syncCartToBackend server current) w = [].
Proof.
  intros server current w Hs.
  destruct (syncCartToBackend_answers server Hs current w)
    as (evs & Hrun & Hreq & Hquiet).
  unfold issued_by, raised_by. rewrite Hrun. simpl.
  rewrite requests_app, toasts_app, !skipn_length_app.
  now rewrite Hreq, Hquiet.
Qed.

(** C5. A cycle all of whose calls fulfil (the stored credentials parse,
    so that each call is sent, and the backend answers each one), run on a
    baseline and a current cart that are keyed by product id, issues each
    request at most once;
    the requests it issues are exactly: remove-item(id) for the ids of the
    baseline that the current cart lacks, add-item(id, qty) for the ids of
    the current cart that the baseline lacks, update-quantity(id, qty) for
    the shared ids whose quantity differs; and afterwards the baseline is
    the current cart. For baseline {A:1} and current {A:1, B:2} the
    requests are the single add-item(B, 2). *)
Theorem sync_cycle_issues_the_diff : forall server baseline current w,
  credentials_parse w ->
  answers server ->
  NoDup (ids baseline) -> NoDup (ids current) ->
  lastSyncedItemsRef (cartProvider w) = baseline ->
  let calls := issued_by (syncCartToBackend server current) w in
  let w' := snd (syncCartToBackend server current w) in
  NoDup calls
  /\ (forall r, In r calls <-> planned baseline current r)
  /\ lastSyncedItemsRef (cartProvider w') = current
  /\ (baseline = [mkCartItem shirt 1] ->
      current = [mkCartItem shirt 1; mkCartItem jeans 2] ->
      calls = [ordersService_addItemToCart "B" 2]).
Proof.
  intros server baseline current w _ Hs Hb Hc Hw calls w'.
  destruct (issued_by_syncCartToBackend server current w Hs) as [Hcalls _].
  fold calls in Hcalls. rewrite Hw in Hcalls.
  destruct (syncCartToBackend_answers server Hs current w)
    as (evs & Hrun & _ & _).
  repeat split.
  - rewrite Hcalls. now apply diff_requests_NoDup.
  - rewrite Hcalls. now apply diff_requests_planned.
  - rewrite Hcalls. now apply diff_requests_planned.
  - unfold w'. now rewrite Hrun.
  - intros -> ->. rewrite Hcalls. reflexivity.
Qed.

Lemma sync_cycle_issues_the_diff_witness :
  issued_by
    (syncCartToBackend accepting [mkCartItem shirt 1; mkCartItem jeans 2])
    (signed_in [mkCartItem shirt 1; mkCartItem jeans 2]
       [mkCartItem shirt 1] 0)
  = [ordersService_addItemToCart "B" 2]
  /\ lastSyncedItemsRef
       (cartProvider
          (snd (syncCartToBackend accepting
                  [mkCartItem shirt 1; mkCartItem jeans 2]
                  (signed_in [mkCartItem shirt 1; mkCartItem jeans 2]
                     [mkCartItem shirt 1] 0))))
     = [mkCartItem shirt 1; mkCartItem jeans 2].
Proof.
  assert (Hs : answers accepting).
  { intros n r. now exists (mkResponse 200 (Ok JsonObject)), JsonObject. }
  assert (Hb : NoDup (ids [mkCartItem shirt 1])).
  { simpl. repeat constructor; simpl; intuition discriminate. }
  assert (Hc : NoDup (ids [mkCartItem shirt 1; mkCartItem jeans 2])).
  { simpl. repeat constructor; simpl; intuition discriminate. }
  assert (Hp : credentials_parse
                 (signed_in [mkCartItem shirt 1; mkCartItem jeans 2]
                    [mkCartItem shirt 1] 0)) by discriminate.
  destruct (sync_cycle_issues_the_diff accepting
              [mkCartItem shirt 1]
              [mkCartItem shirt 1; mkCartItem jeans 2]
              (signed_in [mkCartItem shirt 1; mkCartItem jeans 2]
                 [mkCartItem shirt 1] 0)
              Hp Hs Hb Hc eq_refl)
    as (_ & _ & Hbase & Hex).
  split; [now apply Hex | exact Hbase].
Defined.

End DiffFacts.
(** ** Unauthorized answers and the debounce *)

Section GuardFacts.

(** Whatever statuses the backend answers with, as long as the calls are
    sent and the bodies are JSON, the cycle neither signs out nor raises a
    toast. *)
Lemma sync_ignores_status : forall server current w,
  credentials_parse w ->
  answers server ->
  let w' := snd (syncCartToBackend server current w) in
  authProvider w' = authProvider w
  /\ localStorage w' = localStorage w
  /\ items (cartProvider w') = items (cartProvider w)
  /\ raised_by (syncCartToBackend server current) w = [].
Proof.
  intros server current w _ Hs w'.
  destruct (syncCartToBackend_answers server Hs current w)
    as (evs & Hrun & _ & _).
  destruct (issued_by_syncCartToBackend server current w Hs) as [_ Hquiet].
  unfold w'. rewrite Hrun. now repeat split.
Qed.

(** C4. The claim is that an unauthorized result from a call of the cycle
    forces a logout, clears the cart and raises a session-expired toast.
    Here the backend answers the add-item call of a cycle with status 401
    and a JSON body: [apiRequest] writes to the console and returns the
    body, the cycle takes the call for a success, the session, the stored
    credentials and the cart stay as they were, no toast is raised, and the
    baseline moves on to the current cart. *)
Theorem unauthorized_sync_goes_unnoticed :
  let current := [mkCartItem shirt 1; mkCartItem jeans 2] in
  let w := signed_in current [mkCartItem shirt 1] 0 in
  let w' := snd (syncCartToBackend unauthorized current w) in
  unauthorized 0%nat (ordersService_addItemToCart "B" 2)
    = fetch_resolves (mkResponse 401 (Ok JsonObject))
  /\ requests (events w') = [ordersService_addItemToCart "B" 2]
  /\ toasts (events w') = []
  /\ authProvider w' = authProvider w
  /\ localStorage w' = localStorage w
  /\ items (cartProvider w') = current
  /\ lastSyncedItemsRef (cartProvider w') = current.
Proof. repeat split. Qed.

(** The handler signs out only when a call rejects with a message that
    contains the word, which no status can bring about. *)
Lemma sync_signs_out_on_message :
  let current := [mkCartItem shirt 1; mkCartItem jeans 2] in
  let w := signed_in current [mkCartItem shirt 1] 0 in
  let w' := snd (syncCartToBackend (fun _ _ => fetch_rejects "Unauthorized")
                   current w) in
  user (authProvider w') = None
  /\ toasts (events w')
     = [toast_success "Signed out successfully";
        toast_error "Session expired. Please log in again."]
  /\ lastSyncedItemsRef (cartProvider w') = [mkCartItem shirt 1].
Proof. repeat split. Qed.

Lemma cycle_starts_app : forall evs1 evs2,
  filter is_cycle_start (evs1 ++ evs2)
  = (filter is_cycle_start evs1 ++ filter is_cycle_start evs2)%list.
Proof. intros. apply filter_app. Qed.

Lemma toasts_start_no_cycle : forall ts,
  filter is_cycle_start (map Toasted ts) = []
  /\ requests (map Toasted ts) = [].
Proof. induction ts as [|t ts [IH1 IH2]]; simpl; auto. Qed.

Lemma step_stuck : forall server i w,
  stuck w ->
  let w' := snd (step server i w) in
  stuck w'
  /\ sync_cycles w' = sync_cycles w
  /\ requests (events w') = requests (events w).
Proof.
  intros server i [s [u last rt] [its sy il base timer] p evs] [Hsy Htimer].
  simpl in Hsy, Htimer. subst sy timer.
  destruct i as [op now|now]; unfold step.
  - unfold dispatch, itemsChanged, syncEffect, syncEffect_cleanup, saveEffect.
    run_app.
    destruct (updater op its) as [next ts].
    rewrite raise_run.
    destruct (toasts_start_no_cycle ts) as [Hcyc Hreq].
    destruct op; destruct u; destruct il; run_app;
      unfold stuck, sync_cycles; run_app;
      rewrite ?cycle_starts_app, ?requests_app, ?Hcyc, ?Hreq;
      simpl; rewrite ?app_nil_r; auto.
  - unfold stuck, sync_cycles. simpl. auto.
Qed.

Lemma run_stuck : forall server inputs w,
  stuck w ->
  let w' := snd (run server inputs w) in
  stuck w'
  /\ sync_cycles w' = sync_cycles w
  /\ requests (events w') = requests (events w).
Proof.
  intros server inputs. induction inputs as [|i inputs IH]; intros w Hw; simpl.
  - auto.
  - unfold bind. destruct (step server i w) as [[] w1] eqn:Hstep.
    destruct (step_stuck server i w Hw) as (H1 & H2 & H3).
    rewrite Hstep in H1, H2, H3. simpl in H1, H2, H3.
    destruct (IH w1 H1) as (H4 & H5 & H6).
    repeat split; try apply H4; congruence.
Qed.

(** One mutation on its own is synced once its timer fires. *)
Lemma one_mutation_one_cycle :
  let w' := snd (run accepting
                   [Mutation (AddItem shirt 1) 1000; Elapsed 1500]
                   (signed_in [] [] 0)) in
  sync_cycles w' = 1%nat
  /\ requests (events w') = [ordersService_addItemToCart "A" 1]
  /\ lastSyncedItemsRef (cartProvider w') = [mkCartItem shirt 1]
  /\ syncingRef (cartProvider w') = false.
Proof. repeat split. Qed.

(** Two mutations in a row, the second before the timer of the first has
    fired, leave the flag up and no timer, whatever the operations and the
    times. *)
Lemma two_mutations_stick : forall server op1 t1 op2 t2 w,
  isAuthenticated w = true ->
  initialLoadRef (cartProvider w) = false ->
  syncingRef (cartProvider w) = false ->
  let w' := snd (run server [Mutation op1 t1; Mutation op2 t2] w) in
  stuck w'
  /\ sync_cycles w' = sync_cycles w
  /\ requests (events w') = requests (events w).
Proof.
  intros server op1 t1 op2 t2
    [s [[u|] last rt] [its sy il base timer] p evs] Hauth Hil Hsy;
    simpl in Hauth, Hil, Hsy; [subst sy il | discriminate].
  unfold run, step, dispatch, itemsChanged, syncEffect, syncEffect_cleanup,
    saveEffect.
  run_app.
  destruct (updater op1 its) as [next1 ts1].
  rewrite raise_run.
  destruct (toasts_start_no_cycle ts1) as [Hcyc1 Hreq1].
  destruct op1; run_app;
    destruct (updater op2 next1) as [next2 ts2];
    rewrite raise_run;
    destruct (toasts_start_no_cycle ts2) as [Hcyc2 Hreq2];
    destruct op2; run_app; unfold stuck, sync_cycles; run_app;
    rewrite ?cycle_starts_app, ?requests_app, ?Hcyc1, ?Hreq1, ?Hcyc2, ?Hreq2;
    simpl; rewrite ?app_nil_r; auto.
Qed.

(** C2. The claim is that two mutations inside the 500 ms window lead to
    exactly one cycle, which sends the diff of the final cart. The first
    mutation raises [syncingRef] as it arms the timer; the second one
    cancels that timer and, finding the flag up, arms none. Here the cart
    of a signed-in, loaded, idle session gets a shirt at 1000 ms and jeans
    at 1200 ms: no cycle has run and no request was sent by 1700 ms nor by
    60000 ms, the baseline is still empty, and whatever happens
    afterwards no cycle ever starts. *)
Theorem debounced_mutations_never_sync :
  let w' := snd (run accepting
                   [Mutation (AddItem shirt 1) 1000;
                    Mutation (AddItem jeans 2) 1200;
                    Elapsed 1700; Elapsed 60000]
                   (signed_in [] [] 0)) in
  items (cartProvider w') = [mkCartItem shirt 1; mkCartItem jeans 2]
  /\ sync_cycles w' = 0%nat
  /\ requests (events w') = []
  /\ lastSyncedItemsRef (cartProvider w') = []
  /\ syncingRef (cartProvider w') = true
  /\ debounceTimeout (cartProvider w') = None
  /\ forall server later,
       sync_cycles (snd (run server later w')) = 0%nat
       /\ requests (events (snd (run server later w'))) = [].
Proof.
  intros w'.
  assert (Hstuck : stuck w') by (split; reflexivity).
  repeat split.
  - now destruct (run_stuck server later w' Hstuck) as (_ & -> & _).
  - now destruct (run_stuck server later w' Hstuck) as (_ & _ & ->).
Qed.

End GuardFacts.
(** ** Loading the cart *)

Section LoadFacts.




(** A signed-in load that goes well: the guest cart is pushed, the flag
    set, the backend cart adopted as content and baseline, and the local
    snapshot dropped. *)
Lemma loadCart_adopts_backend_cart :
  let merged := [mkCartItem shirt 2; mkCartItem jeans 4; mkCartItem cap 1] in
  let w := first_load (Some (stringified [mkCartItem shirt 2;
                                          mkCartItem jeans 1]))
             (Some customer) in
  let w' := snd (loadCart (backend_cart merged) w) in
  requests (events w')
  = [ordersService_mergeCart [mkCartItem shirt 2; mkCartItem jeans 1];
     ordersService_getUserCart]
  /\ items (cartProvider w') = merged
  /\ lastSyncedItemsRef (cartProvider w') = merged
  /\ initialLoadRef (cartProvider w') = false
  /\ cartMerged_key (localStorage w') = Some "true"
  /\ cart_key (localStorage w') = None.
Proof. repeat split. Qed.

(** Whatever the outcome of the [try] block, the merge flag it leaves is
    ['true'] exactly when the push was due and fulfilled; otherwise the flag
    is the one found. *)
Lemma loadCart_try_flag : forall server localCart w r w1,
  loadCart_try server localCart w = (r, w1) ->
  cartMerged_key (localStorage w1)
  = if merge_due localCart w
       && fulfils (server (List.length (requests (events w)))
                     (ordersService_mergeCart localCart))
    then Some "true"
    else cartMerged_key (localStorage w).
Proof.
  intros server localCart
    [[ck cm cc at' uk] [u last rt] [its sy il base timer] p evs] r w1.
  unfold loadCart_try, merge_due, fulfils, apiRequest, fetch. run_app.
  repeat (break_match; run_app);
    intros [= <- <-]; run_app; try reflexivity;
    simpl in *; congruence.
Qed.

Lemma readLocalCart_frame : forall w,
  cartMerged_key (localStorage (snd (readLocalCart w)))
  = cartMerged_key (localStorage w)
  /\ requests (events (snd (readLocalCart w))) = requests (events w).
Proof.
  intros [[ck cm cc at' uk] a c p evs].
  unfold readLocalCart. run_app.
  destruct ck as [[|text|stored]|]; run_app; simpl; split; try reflexivity.
  rewrite requests_app. simpl. now rewrite app_nil_r.
Qed.

(** C3, as the claim has it, fails when the push goes through and the
    fetch that follows does not: the guest cart {A:2} becomes the store
    content and the baseline, and the merge flag is set all the same. *)
Lemma merge_flag_set_before_fetch_fails :
  let w := first_load (Some (stringified [mkCartItem shirt 2]))
             (Some customer) in
  let w' := snd (loadCart merge_then_down w) in
  credentials_parse w
  /\ load_fails merge_then_down w
  /\ requests (events w')
     = [ordersService_mergeCart [mkCartItem shirt 2];
        ordersService_getUserCart]
  /\ items (cartProvider w') = [mkCartItem shirt 2]
  /\ lastSyncedItemsRef (cartProvider w') = [mkCartItem shirt 2]
  /\ cartMerged_key (localStorage w') = Some "true".
Proof.
  repeat split; [discriminate | now eexists _, _].
Qed.

(** A failed [try] block hands over to the [catch] (lines 109-114). *)
Lemma loadCart_catch : forall server w message w1,
  isAuthenticated w = true ->
  is_true (checkoutComplete_key (localStorage w)) = false ->
  loadCart_try server (fst (readLocalCart w)) (snd (readLocalCart w))
  = (Err message, w1) ->
  loadCart server w
  = (console "Failed to load user cart:" ;;
     setItems (fst (readLocalCart w)) ;;
     set_lastSyncedItemsRef (fst (readLocalCart w)) ;;
     set_initialLoadRef false) w1.
Proof.
  intros server w message w1 Hauth Hcc Htry.
  unfold loadCart, bind at 1, gets at 1.
  unfold bind at 1, gets at 1. rewrite Hcc, Hauth.
  unfold bind at 1.
  destruct (readLocalCart w) as [c w0]. simpl in Htry. simpl fst.
  unfold bind at 1. now rewrite Htry.
Qed.

(** C3 (amended). With stored credentials that parse, so that the calls
    of the load are sent: when the [try] block of a signed-in load fails,
    the cart read from the snapshot becomes the store content and the
    baseline and the initial load is over. The merge flag is ['true'] if
    the push was due and fulfilled, since it is set right after the push
    and before the fetch; otherwise (push rejected, or not due) the flag is
    left as it was found. *)
Theorem loadCart_failure_keeps_local_cart : forall server w,
  credentials_parse w ->
  isAuthenticated w = true ->
  is_true (checkoutComplete_key (localStorage w)) = false ->
  load_fails server w ->
  let localCart := fst (readLocalCart w) in
  let w' := snd (loadCart server w) in
  items (cartProvider w') = localCart
  /\ lastSyncedItemsRef (cartProvider w') = localCart
  /\ initialLoadRef (cartProvider w') = false
  /\ cartMerged_key (localStorage w')
     = if merge_due localCart w
          && fulfils (server (List.length (requests (events w)))
                        (ordersService_mergeCart localCart))
       then Some "true"
       else cartMerged_key (localStorage w).
Proof.
  intros server w _ Hauth Hcc (message & w1 & Htry) localCart w'.
  pose proof (loadCart_try_flag _ _ _ _ _ Htry) as Hflag.
  destruct (readLocalCart_frame w) as [Hcm Hreq].
  unfold merge_due in Hflag. rewrite Hcm, Hreq in Hflag.
  fold localCart in Hflag. fold (merge_due localCart w) in Hflag.
  rewrite <- Hflag.
  unfold w'. rewrite (loadCart_catch _ _ _ _ Hauth Hcc Htry).
  fold localCart.
  destruct w1 as [s1 a1 [its1 sy1 il1 base1 timer1] p1 evs1].
  run_app. repeat split.
Qed.

Lemma loadCart_failure_keeps_local_cart_witness :
  let w := first_load (Some (stringified [mkCartItem shirt 2]))
             (Some customer) in
  items (cartProvider (snd (loadCart merge_then_down w)))
  = [mkCartItem shirt 2]
  /\ cartMerged_key (localStorage (snd (loadCart merge_then_down w)))
     = Some "true".
Proof.
  intros w.
  assert (Hauth : isAuthenticated w = true) by reflexivity.
  assert (Hcc : is_true (checkoutComplete_key (localStorage w)) = false)
    by reflexivity.
  assert (Hfail : load_fails merge_then_down w) by (now eexists _, _).
  assert (Hp : credentials_parse w) by discriminate.
  destruct (loadCart_failure_keeps_local_cart merge_then_down w
              Hp Hauth Hcc Hfail) as (Hitems & _ & _ & Hflag).
  split; [exact Hitems | exact Hflag].
Defined.

End LoadFacts.
(** ** The on-demand session refresh *)

Section RefreshFacts.

(** Through the function of a render that has seen an attempt less than
    2000 ms old, the call answers from what that render captured: no
    request and no change, whatever the state it is made in. *)
Lemma refreshToken_of_throttled : forall render server now w,
  now - lastRefreshAttempt render < 2000 ->
  refreshToken_of render server now w
  = (match user render with Some _ => true | None => false end, w).
Proof.
  intros render server now w Hlt. unfold refreshToken_of.
  apply Z.ltb_lt in Hlt. now rewrite Hlt.
Qed.

(** Through the latest render, that is the status the provider holds. *)
Lemma refreshToken_throttled : forall server now w,
  now - lastRefreshAttempt (authProvider w) < 2000 ->
  refreshToken server now w = (isAuthenticated w, w).
Proof.
  intros server now w Hlt. unfold refreshToken.
  now rewrite refreshToken_of_throttled.
Qed.

(** Outside the cooldown of its render the call is an attempt: it records
    its time, asks the refresh endpoint at most once, sends nothing but
    session requests, and leaves the cart and its keys alone. *)
Lemma refreshToken_of_attempt : forall render server now w,
  2000 <= now - lastRefreshAttempt render ->
  let w' := snd (refreshToken_of render server now w) in
  exists evs,
    events w' = (events w ++ evs)%list
    /\ lastRefreshAttempt (authProvider w') = now
    /\ (refresh_calls (requests evs) <= 1)%nat
    /\ (forall r, In r (requests evs) -> is_session_call r = true)
    /\ toasts evs = []
    /\ cartProvider w' = cartProvider w
    /\ cart_key (localStorage w') = cart_key (localStorage w)
    /\ cartMerged_key (localStorage w') = cartMerged_key (localStorage w)
    /\ isProcessing w' = isProcessing w.
Proof.
  intros render server now
    [[ck cm cc at' uk] [u last rt] c p evs] Hge.
  apply Z.ltb_ge in Hge.
  unfold refreshToken_of, attemptTokenRefresh, read_authTokens, apiRequest,
    authService_refreshToken_call, fetch, clearAuthState.
  rewrite Hge. run_app.
  repeat (break_match; run_app);
    (eexists; split; [rewrite <- ?app_assoc; try reflexivity;
                      symmetry; apply app_nil_r|]);
    repeat split; try (cbv; lia);
    simpl; intros r Hr; intuition (subst; reflexivity).
Qed.

Lemma refreshToken_attempt : forall server now w,
  2000 <= now - lastRefreshAttempt (authProvider w) ->
  let w' := snd (refreshToken server now w) in
  exists evs,
    events w' = (events w ++ evs)%list
    /\ lastRefreshAttempt (authProvider w') = now
    /\ (refresh_calls (requests evs) <= 1)%nat
    /\ (forall r, In r (requests evs) -> is_session_call r = true)
    /\ toasts evs = []
    /\ cartProvider w' = cartProvider w
    /\ cart_key (localStorage w') = cart_key (localStorage w)
    /\ cartMerged_key (localStorage w') = cartMerged_key (localStorage w)
    /\ isProcessing w' = isProcessing w.
Proof.
  intros server now w Hge. unfold refreshToken.
  now apply refreshToken_of_attempt.
Qed.

Lemma issued_by_events : forall {A} (m : App A) w evs,
  events (snd (m w)) = (events w ++ evs)%list ->
  issued_by m w = requests evs /\ raised_by m w = toasts evs.
Proof.
  intros A m w evs H. unfold issued_by, raised_by. rewrite H.
  now rewrite requests_app, toasts_app, !skipn_length_app.
Qed.

(** C8, as the claim has it, fails when the first of the two calls is
    itself inside the cooldown of an earlier attempt: a throttled call does
    not restart the window. From a fresh provider, the call at 10000 ms is
    an attempt; the call at 11500 ms is throttled; the call at 12500 ms,
    one second after it, goes to the network. *)
Lemma throttled_call_does_not_restart_cooldown :
  let w0 := signed_in [] [] 0 in
  let w1 := snd (refreshToken accepting 10000 w0) in
  let w2 := snd (refreshToken accepting 11500 w1) in
  issued_by (refreshToken accepting 10000) w0 = [authService_getUserProfile]
  /\ refreshToken accepting 11500 w1 = (true, w1)
  /\ 12500 - 11500 < 2000
  /\ issued_by (refreshToken accepting 12500) w2
     = [authService_getUserProfile].
Proof. repeat split. Qed.

(** Two calls through one and the same function object are both
    attempts, however close they are: the closure still holds the
    [lastRefreshAttempt] of its render. Here the profile endpoint is down,
    and each of two calls 500 ms apart asks the refresh endpoint. *)
Lemma same_function_object_is_not_throttled :
  let w0 := signed_in [] [] 0 in
  let render := authProvider w0 in
  let w1 := snd (refreshToken_of render profile_down 10000 w0) in
  lastRefreshAttempt (authProvider w1) = 10000
  /\ refresh_calls (issued_by (refreshToken_of render profile_down 10000) w0)
     = 1%nat
  /\ refresh_calls (issued_by (refreshToken_of render profile_down 10500) w1)
     = 1%nat.
Proof. repeat split. Qed.

(** C8 (amended). A call made through the function of a render that
    recorded an attempt less than 2000 ms old returns the authentication
    status that render captured, sends nothing and changes nothing,
    whatever the state it is made in. Hence, of two calls less than 2000 ms
    apart, the first of which is an attempt and the second of which goes
    through the function of a render that has seen the time the first
    recorded, only the first reaches the network, where it asks the refresh
    endpoint at most once; made through the latest render once the first
    has settled, the second returns the status left by the first. A call
    through a function whose render has not seen an attempt of the last
    2000 ms is an attempt itself. *)
Theorem refreshToken_cooldown : forall server w r1 r2 t1 t2,
  2000 <= t1 - lastRefreshAttempt r1 ->
  t2 - t1 < 2000 ->
  lastRefreshAttempt r2 = t1 ->
  let first := refreshToken_of r1 server t1 in
  let second := refreshToken_of r2 server t2 in
  let w1 := snd (first w) in
  (refresh_calls (issued_by first w) <= 1)%nat
  /\ lastRefreshAttempt (authProvider w1) = t1
  /\ (forall w2,
        second w2
        = (match user r2 with Some _ => true | None => false end, w2)
        /\ issued_by second w2 = [])
  /\ refreshToken server t2 w1 = (isAuthenticated w1, w1)
  /\ (forall stale w2,
        2000 <= t2 - lastRefreshAttempt stale ->
        lastRefreshAttempt
          (authProvider (snd (refreshToken_of stale server t2 w2))) = t2).
Proof.
  intros server w r1 r2 t1 t2 Hfirst Hclose Hseen first second w1.
  destruct (refreshToken_of_attempt r1 server t1 w Hfirst)
    as (evs & Hevs & Hlast & Hcalls & _).
  fold first in Hevs, Hlast. fold w1 in Hevs, Hlast.
  destruct (issued_by_events first w evs Hevs) as [-> _].
  split; [assumption|]. split; [assumption|]. split; [|split].
  - intros w2.
    assert (Hthrottled : second w2
      = (match user r2 with Some _ => true | None => false end, w2)).
    { apply refreshToken_of_throttled. now rewrite Hseen. }
    split; [assumption|].
    unfold issued_by. rewrite Hthrottled. simpl. apply skipn_all.
  - apply refreshToken_throttled. now rewrite Hlast.
  - intros stale w2 Hstale.
    destruct (refreshToken_of_attempt stale server t2 w2 Hstale)
      as (evs2 & _ & Hlast2 & _).
    exact Hlast2.
Qed.

Lemma refreshToken_cooldown_witness :
  let w := signed_in [] [] 10000 in
  let w1 := snd (refreshToken accepting 12500 w) in
  issued_by (refreshToken accepting 12500) w = [authService_getUserProfile]
  /\ refreshToken_of (authProvider w1) accepting 13000 w1 = (true, w1)
  /\ refreshToken accepting 13000 w1 = (true, w1).
Proof.
  intros w w1.
  assert (Hfirst : 2000 <= 12500 - lastRefreshAttempt (authProvider w))
    by (simpl; lia).
  assert (Hclose : 13000 - 12500 < 2000) by lia.
  destruct (refreshToken_cooldown accepting w (authProvider w)
              (authProvider w1) 12500 13000 Hfirst Hclose eq_refl)
    as (_ & _ & Hsecond & Hlatest & _).
  split; [reflexivity|]. split; [|exact Hlatest].
  exact (proj1 (Hsecond w1)).
Defined.

End RefreshFacts.
(** ** Checkout *)

Section CheckoutFacts.

(** Throttled or not, a refresh sends session requests only, raises no
    toast and leaves the cart, its keys and the checkout flag alone. *)
Lemma refreshToken_frame : forall server now w,
  let w' := snd (refreshToken server now w) in
  exists evs,
    events w' = (events w ++ evs)%list
    /\ (forall r, In r (requests evs) -> is_session_call r = true)
    /\ toasts evs = []
    /\ cartProvider w' = cartProvider w
    /\ cart_key (localStorage w') = cart_key (localStorage w)
    /\ cartMerged_key (localStorage w') = cartMerged_key (localStorage w)
    /\ isProcessing w' = isProcessing w.
Proof.
  intros server now w.
  destruct (Z.lt_ge_cases (now - lastRefreshAttempt (authProvider w)) 2000)
    as [Hlt|Hge].
  - rewrite (refreshToken_throttled server now w Hlt). simpl.
    exists []. rewrite app_nil_r. repeat split. intros r [].
  - destruct (refreshToken_attempt server now w Hge)
      as (evs & H1 & _ & _ & H2 & H3 & H4 & H5 & H6 & H7).
    exists evs. now repeat split.
Qed.

Lemma processCheckout_empty_run : forall server now shippingAddress
  paymentMethod w,
  items (cartProvider w) = [] ->
  let out := processCheckout server now shippingAddress paymentMethod w in
  exists evs,
    fst out = Ok None
    /\ events (snd out) = (events w ++ evs)%list
    /\ (forall r, In r (requests evs) -> is_session_call r = true)
    /\ toasts evs
       = [toast_error
            (if fst (checkout_refresh server now w)
             then "Your cart is empty. Please add items before checking out."
             else
               "Your session has expired. Please sign in again to continue.")]
    /\ cartProvider (snd out) = cartProvider w
    /\ cart_key (localStorage (snd out)) = cart_key (localStorage w)
    /\ isProcessing (snd out) = false.
Proof.
  intros server now shippingAddress paymentMethod
    [s a [its sy il base timer] p evs] Hits. simpl in Hits. subst its.
  unfold processCheckout, checkout_refresh, checkout_prelude. run_app.
  match goal with
  | |- context [refreshToken server now ?w0] =>
      destruct (refreshToken_frame server now w0)
        as (evsR & He & Hsess & Hquiet & Hcart & Hck & _ & _);
      destruct (refreshToken server now w0) as [b [s1 a1 c1 p1 evs1]]
  end.
  simpl in He, Hcart, Hck. subst evs1 c1.
  destruct b; run_app; simpl.
  - eexists. split; [reflexivity|].
    split; [rewrite <- !app_assoc; reflexivity|].
    rewrite !requests_app, !toasts_app, Hquiet. simpl.
    rewrite app_nil_r. repeat split; auto.
  - eexists. split; [reflexivity|].
    split; [rewrite <- !app_assoc; reflexivity|].
    rewrite !requests_app, !toasts_app, Hquiet. simpl.
    rewrite app_nil_r. repeat split; auto.
Qed.

(** C9, as the claim has it, fails on its second point: the checkout
    refreshes the session before it looks at the cart, so with an empty
    cart it has already asked the backend for the profile when it turns the
    attempt down. *)
Lemma empty_cart_checkout_reaches_network :
  let w := signed_in [] [] 0 in
  let out := processCheckout accepting 5000 home cod w in
  fst out = Ok None
  /\ issued_by (processCheckout accepting 5000 home cod) w
     = [authService_getUserProfile]
  /\ raised_by (processCheckout accepting 5000 home cod) w
     = [toast_error
          "Your cart is empty. Please add items before checking out."].
Proof. repeat split. Qed.

(** A checkout with an empty cart whose session refresh fails: the toast
    is the session one, not the empty-cart one. *)
Lemma empty_cart_checkout_session_expired :
  let w := first_load None None in
  let checkout := processCheckout accepting 5000 home cod in
  fst (checkout_refresh accepting 5000 w) = false
  /\ fst (checkout w) = Ok None
  /\ issued_by checkout w = []
  /\ raised_by checkout w
     = [toast_error
          "Your session has expired. Please sign in again to continue."].
Proof. repeat split. Qed.

(** C9 (amended). A checkout attempt with an empty cart first refreshes
    the session, which may send profile and refresh requests; it then
    returns null having raised exactly one toast, an error: the empty-cart
    message when the refresh passed, the session-expired message when it
    did not. It has sent no order-creation request nor any cart request,
    left the cart, its baseline and its stored snapshot unchanged, and
    reset the processing flag. *)
Theorem empty_cart_checkout_rejected : forall server now shippingAddress
  paymentMethod w,
  items (cartProvider w) = [] ->
  let checkout := processCheckout server now shippingAddress paymentMethod in
  fst (checkout w) = Ok None
  /\ raised_by checkout w
     = [toast_error
          (if fst (checkout_refresh server now w)
           then "Your cart is empty. Please add items before checking out."
           else
             "Your session has expired. Please sign in again to continue.")]
  /\ (forall r, In r (issued_by checkout w) -> is_session_call r = true)
  /\ cartProvider (snd (checkout w)) = cartProvider w
  /\ cart_key (localStorage (snd (checkout w))) = cart_key (localStorage w)
  /\ isProcessing (snd (checkout w)) = false.
Proof.
  intros server now shippingAddress paymentMethod w Hits checkout.
  destruct (processCheckout_empty_run server now shippingAddress
              paymentMethod w Hits)
    as (evs & Hout & Hevs & Hsess & Htoast & Hcart & Hck & Hp).
  fold checkout in Hout, Hevs, Hcart, Hck, Hp.
  destruct (issued_by_events checkout w evs Hevs) as [Hissued Hraised].
  repeat split; try assumption.
  - now rewrite Hraised.
  - now rewrite Hissued.
Qed.

Lemma empty_cart_checkout_rejected_witness :
  let w := signed_in [] [] 0 in
  fst (processCheckout accepting 5000 home cod w) = Ok None
  /\ raised_by (processCheckout accepting 5000 home cod) w
     = [toast_error
          "Your cart is empty. Please add items before checking out."]
  /\ cartProvider (snd (processCheckout accepting 5000 home cod w))
     = cartProvider w.
Proof.
  intros w.
  assert (Hits : items (cartProvider w) = []) by reflexivity.
  destruct (empty_cart_checkout_rejected accepting 5000 home cod w Hits)
    as (Hout & Htoast & _ & Hcart & _).
  split; [exact Hout|]. split; [exact Htoast | exact Hcart].
Defined.

End CheckoutFacts.
(** * Further properties of the code *)

(** ** Looking items up after a mutation *)

Section LookupFacts.

Implicit Types (c : Cart) (item : CartItem) (k : string).

Lemma findById_map_same_id : forall (f : CartItem -> CartItem) k c,
  (forall item, pid (f item) = pid item) ->
  findById k (map f c) = option_map f (findById k c).
Proof.
  intros f k c Hf. unfold findById.
  induction c as [|item c IH]; simpl; [reflexivity|].
  rewrite Hf. destruct (pid item =? k)%string; [reflexivity | exact IH].
Qed.

Lemma findById_app : forall k c1 c2,
  findById k (c1 ++ c2)%list
  = match findById k c1 with
    | Some item => Some item
    | None => findById k c2
    end.
Proof.
  intros k c1 c2. unfold findById.
  induction c1 as [|item c1 IH]; simpl; [reflexivity|].
  destruct (pid item =? k)%string; [reflexivity | exact IH].
Qed.

Lemma findById_filter_other : forall k k' c,
  findById k' (filter (fun item => negb (pid item =? k)%string) c)
  = if (k =? k')%string then None else findById k' c.
Proof.
  intros k k' c. unfold findById.
  induction c as [|item c IH]; simpl.
  - now destruct (k =? k')%string.
  - destruct (pid item =? k)%string eqn:Hk; simpl.
    + apply String.eqb_eq in Hk. subst k. rewrite IH.
      now destruct (pid item =? k')%string.
    + rewrite IH. destruct (pid item =? k')%string eqn:Hk'; [|reflexivity].
      apply String.eqb_eq in Hk'. subst k'.
      now rewrite String.eqb_sym, Hk.
Qed.

(** X1. After [addItem(product, q)] the quantity found under the product's
    id is the former one plus [q], or [q] when the id was not in the cart;
    the quantity under every other id is as before. *)
Theorem addItem_lookup : forall product0 q c k,
  quantityOf (fst (addItem product0 q c)) k
  = if (id product0 =? k)%string
    then Some match quantityOf c k with
              | Some old => old + q
              | None => q
              end
    else quantityOf c k.
Proof.
  intros product0 q c k. unfold quantityOf, addItem.
  destruct (findById (id product0) c) as [existing|] eqn:Hfind; simpl fst.
  - rewrite (findById_map_same_id
               (fun item => if (pid item =? id product0)%string
                            then withQuantity item (quantity item + q)
                            else item))
      by (intros item; now destruct (pid item =? id product0)%string).
    destruct (id product0 =? k)%string eqn:Hk.
    + apply String.eqb_eq in Hk. subst k. rewrite Hfind. simpl.
      apply findById_some in Hfind as [_ Hpid]. now rewrite Hpid, String.eqb_refl.
    + destruct (findById k c) as [item|] eqn:Hitem; [|reflexivity]. simpl.
      apply findById_some in Hitem as [_ Hpid]. subst k.
      now rewrite String.eqb_sym, Hk.
  - rewrite findById_app. unfold findById at 2. simpl. unfold pid at 1. simpl.
    destruct (id product0 =? k)%string eqn:Hk.
    + apply String.eqb_eq in Hk. subst k. now rewrite Hfind.
    + now destruct (findById k c).
Qed.

(** X2. After [removeItem(id)] nothing is found under that id, and the
    quantity under every other id is as before. *)
Theorem removeItem_lookup : forall k c k',
  quantityOf (fst (removeItem k c)) k'
  = if (k =? k')%string then None else quantityOf c k'.
Proof.
  intros k c k'. unfold quantityOf, removeItem. simpl fst.
  rewrite findById_filter_other. now destruct (k =? k')%string.
Qed.

(** X3. After [updateQuantity(id, q)] the id carries [q] if it was in the
    cart and [q] is positive, and nothing if [q] is zero or negative; an id
    that was not in the cart is still not in it; the quantity under every
    other id is as before. *)
Theorem updateQuantity_lookup : forall k q c k',
  quantityOf (fst (updateQuantity k q c)) k'
  = if (k =? k')%string
    then (if q <=? 0 then None
          else match quantityOf c k' with Some _ => Some q | None => None end)
    else quantityOf c k'.
Proof.
  intros k q c k'. unfold updateQuantity.
  destruct (q <=? 0).
  - unfold quantityOf, removeItem. simpl fst.
    rewrite findById_filter_other. now destruct (k =? k')%string.
  - unfold quantityOf. simpl fst.
    rewrite (findById_map_same_id
               (fun item => if (pid item =? k)%string
                            then withQuantity item q else item))
      by (intros item; now destruct (pid item =? k)%string).
    destruct (findById k' c) as [item|] eqn:Hitem; simpl.
    + apply findById_some in Hitem as [_ Hpid]. subst k'.
      rewrite (String.eqb_sym k). now destruct (pid item =? k)%string.
    + now destruct (k =? k')%string.
Qed.

(** X4. Setting the same quantity twice gives the cart that setting it
    once gives, whatever the quantity. *)
Theorem updateQuantity_idempotent : forall k q c,
  fst (updateQuantity k q (fst (updateQuantity k q c)))
  = fst (updateQuantity k q c).
Proof.
  intros k q c. unfold updateQuantity, removeItem.
  destruct (q <=? 0); simpl fst.
  - induction c as [|item c IH]; simpl; [reflexivity|].
    destruct (pid item =? k)%string eqn:Hk; simpl; [exact IH|].
    rewrite Hk. simpl. now rewrite IH.
  - rewrite map_map. apply map_ext. intros item.
    destruct (pid item =? k)%string eqn:Hk.
    + unfold pid, withQuantity. simpl. unfold pid in Hk. now rewrite Hk.
    + now rewrite Hk.
Qed.

End LookupFacts.

(** ** Totals, merging and the product page *)

Section TotalFacts.

Implicit Types (c : Cart) (item : CartItem) (k : string) (m : JsMap).

Lemma totalItems_acc : forall c a,
  fold_left (fun total item => total + quantity item) c a
  = a + totalItems c.
Proof.
  unfold totalItems. induction c as [|item c IH]; intros a; simpl; [lia|].
  rewrite (IH (a + quantity item)), (IH (quantity item)). lia.
Qed.

Lemma totalItems_cons : forall item c,
  totalItems (item :: c) = quantity item + totalItems c.
Proof.
  intros item c. unfold totalItems at 1. simpl. now rewrite totalItems_acc.
Qed.

Lemma totalItems_app : forall c1 c2,
  totalItems (c1 ++ c2)%list = totalItems c1 + totalItems c2.
Proof.
  induction c1 as [|item c1 IH]; intros c2; simpl.
  - reflexivity.
  - rewrite !totalItems_cons, IH. lia.
Qed.

Lemma map_other_ids : forall (f : CartItem -> CartItem) k c,
  ~ In k (ids c) ->
  map (fun item => if (pid item =? k)%string then f item else item) c = c.
Proof.
  intros f k c Hnot. induction c as [|item c IH]; simpl; [reflexivity|].
  simpl in Hnot. destruct (pid item =? k)%string eqn:Hk.
  - apply String.eqb_eq in Hk. tauto.
  - f_equal. apply IH. tauto.
Qed.

Lemma filter_other_ids : forall k c,
  ~ In k (ids c) ->
  filter (fun item => negb (pid item =? k)%string) c = c.
Proof.
  intros k c Hnot. induction c as [|item c IH]; simpl; [reflexivity|].
  simpl in Hnot. destruct (pid item =? k)%string eqn:Hk; simpl.
  - apply String.eqb_eq in Hk. tauto.
  - f_equal. apply IH. tauto.
Qed.

Lemma totalItems_bump : forall q k c,
  NoDup (ids c) -> In k (ids c) ->
  totalItems (map (fun item => if (pid item =? k)%string
                               then withQuantity item (quantity item + q)
                               else item) c)
  = totalItems c + q.
Proof.
  intros q k c. induction c as [|item c IH]; simpl; intros Hnd Hin;
    [contradiction|].
  inversion Hnd as [|? ? Hnotin Hnd']; subst.
  destruct (pid item =? k)%string eqn:Hk.
  - apply String.eqb_eq in Hk. subst k.
    rewrite (map_other_ids
               (fun item0 => withQuantity item0 (quantity item0 + q)))
      by assumption.
    rewrite !totalItems_cons. simpl. lia.
  - apply String.eqb_neq in Hk. destruct Hin as [Hin|Hin]; [contradiction|].
    rewrite !totalItems_cons, IH by assumption. lia.
Qed.

(** X5. On a cart keyed by product id, [addItem(product, q)] raises
    [totalItems] by [q], and [removeItem(id)] lowers it by the quantity the
    id carried (by nothing when the id was not in the cart). *)
Theorem totalItems_after_mutation : forall c,
  NoDup (ids c) ->
  (forall product0 q,
      totalItems (fst (addItem product0 q c)) = totalItems c + q)
  /\ (forall k,
         totalItems (fst (removeItem k c))
         = totalItems c - match quantityOf c k with
                          | Some q => q
                          | None => 0
                          end).
Proof.
  intros c Hnd. split.
  - intros product0 q. unfold addItem.
    destruct (findById (id product0) c) as [existing|] eqn:Hfind; simpl fst.
    + apply totalItems_bump; [assumption|].
      apply in_ids_findById. congruence.
    + rewrite totalItems_app, totalItems_cons.
      change (totalItems []) with 0. simpl. lia.
  - intros k. unfold removeItem, quantityOf, findById. simpl fst.
    induction c as [|item c IH]; simpl;
      [change (totalItems []) with 0; lia|].
    inversion Hnd as [|? ? Hnotin Hnd']; subst.
    destruct (pid item =? k)%string eqn:Hk; simpl.
    + apply String.eqb_eq in Hk. subst k.
      rewrite filter_other_ids by assumption.
      rewrite totalItems_cons. lia.
    + rewrite !totalItems_cons, IH by assumption. lia.
Qed.

Lemma totalItems_after_mutation_witness :
  totalItems (fst (addItem jeans 3 [mkCartItem shirt 2; mkCartItem jeans 1]))
  = 6.
Proof.
  assert (Hnd : NoDup (ids [mkCartItem shirt 2; mkCartItem jeans 1])).
  { simpl. repeat constructor; simpl; intuition discriminate. }
  destruct (totalItems_after_mutation _ Hnd) as [Hadd _].
  rewrite Hadd. reflexivity.
Defined.

End TotalFacts.

Section MergeTotals.

Implicit Types (c : Cart) (item v : CartItem) (k : string) (m : JsMap).

Lemma Map_set_fresh : forall m k v,
  ~ In k (Map_keys m) -> Map_set m k v = (m ++ [(k, v)])%list.
Proof.
  induction m as [|[k0 v0] m IH]; intros k v Hnot; simpl; [reflexivity|].
  simpl in Hnot. destruct (k0 =? k)%string eqn:Hk.
  - apply String.eqb_eq in Hk. tauto.
  - f_equal. apply IH. tauto.
Qed.

Lemma total_Map_set : forall m k v,
  totalItems (Map_values (Map_set m k v))
  = totalItems (Map_values m) + quantity v
    - match Map_get m k with Some e => quantity e | None => 0 end.
Proof.
  induction m as [|[k0 v0] m IH]; intros k v; simpl.
  - rewrite totalItems_cons. change (totalItems []) with 0. lia.
  - destruct (k0 =? k)%string; simpl.
    + rewrite !totalItems_cons. lia.
    + rewrite !totalItems_cons, IH. lia.
Qed.

Lemma total_absorb : forall m item,
  totalItems (Map_values (absorb m item))
  = totalItems (Map_values m) + quantity item.
Proof.
  intros m item. unfold absorb.
  destruct (Map_get m (pid item)) as [existing|] eqn:Hget;
    rewrite total_Map_set, Hget; simpl; lia.
Qed.

Lemma total_absorbAll : forall c m,
  totalItems (Map_values (fold_left absorb c m))
  = totalItems (Map_values m) + totalItems c.
Proof.
  induction c as [|item c IH]; intros m; simpl.
  - change (totalItems []) with 0. lia.
  - rewrite IH, total_absorb, totalItems_cons. lia.
Qed.

Lemma Map_values_entries : forall c,
  Map_values (map (fun item => (pid item, item)) c) = c.
Proof.
  intros c. unfold Map_values. rewrite map_map. simpl. apply map_id.
Qed.

Lemma absorbAll_entries : forall c m,
  NoDup (Map_keys m ++ ids c) ->
  fold_left absorb c m = (m ++ map (fun item => (pid item, item)) c)%list.
Proof.
  induction c as [|item c IH]; intros m Hnd; simpl.
  - now rewrite app_nil_r.
  - assert (Hfresh : ~ In (pid item) (Map_keys m)).
    { simpl in Hnd. apply NoDup_remove_2 in Hnd.
      intros H. apply Hnd. apply in_or_app. now left. }
    assert (Hstep : absorb m item = (m ++ [(pid item, item)])%list).
    { unfold absorb.
      rewrite (proj2 (Map_get_none_keys m (pid item)) Hfresh).
      now apply Map_set_fresh. }
    rewrite Hstep, IH.
    + now rewrite <- app_assoc.
    + unfold Map_keys. rewrite map_app. simpl.
      rewrite <- app_assoc. exact Hnd.
Qed.

(** X6. Merging loses and invents no unit: when the first cart is keyed by
    product id, the quantities of the merged cart add up to those of the
    two carts together, whatever the second cart holds. *)
Theorem mergeCarts_totalItems : forall cartA cartB,
  NoDup (ids cartA) ->
  totalItems (mergeCarts cartA cartB) = totalItems cartA + totalItems cartB.
Proof.
  intros cartA cartB HA. rewrite mergeCarts_unfold, total_absorbAll.
  rewrite setAll_entries by assumption. simpl.
  now rewrite Map_values_entries.
Qed.

Lemma mergeCarts_totalItems_witness :
  totalItems (mergeCarts [mkCartItem shirt 2; mkCartItem jeans 1]
                         [mkCartItem jeans 3; mkCartItem jeans 5])
  = 11.
Proof.
  rewrite (mergeCarts_totalItems [mkCartItem shirt 2; mkCartItem jeans 1]).
  - reflexivity.
  - simpl. repeat constructor; simpl; intuition discriminate.
Defined.

(** X7. The empty cart is neutral for merging on either side, on a cart
    keyed by product id: the items come back as they were and in their
    order. *)
Theorem mergeCarts_empty : forall c,
  NoDup (ids c) -> mergeCarts c [] = c /\ mergeCarts [] c = c.
Proof.
  intros c Hnd. rewrite !mergeCarts_unfold. simpl. split.
  - rewrite setAll_entries by assumption. simpl. apply Map_values_entries.
  - rewrite absorbAll_entries by assumption. simpl. apply Map_values_entries.
Qed.

Lemma mergeCarts_empty_witness :
  mergeCarts [mkCartItem shirt 2; mkCartItem jeans 1] []
  = [mkCartItem shirt 2; mkCartItem jeans 1].
Proof.
  apply (mergeCarts_empty [mkCartItem shirt 2; mkCartItem jeans 1]).
  simpl. repeat constructor; simpl; intuition discriminate.
Defined.

(** Without that, the first loop overwrites: a repeated id of the first
    cart keeps its last quantity only. *)
Lemma mergeCarts_repeated_id :
  mergeCarts [mkCartItem shirt 2; mkCartItem shirt 5] []
  = [mkCartItem shirt 5].
Proof. reflexivity. Qed.

End MergeTotals.

Section ProductPageFacts.

Lemma click_at_least_one : forall q c, 1 <= q -> 1 <= click q c.
Proof.
  intros q [|] Hq; simpl; [lia|].
  destruct (1 <? q) eqn:Hlt; [apply Z.ltb_lt in Hlt|]; lia.
Qed.

Lemma clicks_at_least_one : forall clicks q,
  1 <= q -> 1 <= fold_left click clicks q.
Proof.
  induction clicks as [|c clicks IH]; simpl; intros q Hq; [assumption|].
  apply IH. now apply click_at_least_one.
Qed.

(** X8. Whatever the buyer clicks, the stepper of the product page never
    goes below one. *)
Theorem stepper_at_least_one : forall clicks, 1 <= stepper clicks.
Proof.
  intros clicks. unfold stepper. apply clicks_at_least_one. lia.
Qed.

Lemma ui_op_adds_at_least_one : forall u, adds_at_least_one (ui_op u).
Proof.
  intros [p clicks|p|k|k q|]; simpl; auto; [|lia].
  unfold stepper. apply clicks_at_least_one. lia.
Qed.

(** X9. Through the calls the pages make (the product page with its
    stepper, the product card with the default quantity, removals, quantity
    updates of any value and clearing), every cart reached from the empty
    store has quantities of at least one and no repeated id. *)
Theorem ui_carts_well_formed : forall us,
  well_formed (run_ops (map ui_op us)).
Proof.
  intros us. apply run_ops_well_formed.
  apply Forall_map, Forall_forall. intros u _. apply ui_op_adds_at_least_one.
Qed.

Lemma in_firstn_in : forall {A} n (l : list A) x,
  In x (firstn n l) -> In x l.
Proof.
  intros A n. induction n as [|n IH]; intros [|y l] x; simpl; try tauto.
  intros [H|H]; [now left | right; now apply IH].
Qed.

(** X10. The related products shown on a product page are at most five,
    all come from the category list, and never include the product shown. *)
Theorem relatedProducts_spec : forall product0 list0,
  (List.length (relatedProducts product0 list0) <= 5)%nat
  /\ (forall p, In p (relatedProducts product0 list0) ->
                In p list0 /\ id p <> id product0).
Proof.
  intros product0 list0. unfold relatedProducts. split.
  - apply firstn_le_length.
  - intros p Hin. apply in_firstn_in in Hin.
    apply filter_In in Hin as [Hin Hne]. split; [assumption|].
    apply negb_true_iff, String.eqb_neq in Hne. exact Hne.
Qed.

Lemma relatedProducts_spec_witness :
  relatedProducts shirt [shirt; jeans; cap] = [jeans; cap]
  /\ (List.length (relatedProducts shirt [shirt; jeans; cap]) <= 5)%nat.
Proof.
  destruct (relatedProducts_spec shirt [shirt; jeans; cap]) as [Hlen _].
  split; [reflexivity | exact Hlen].
Defined.

End ProductPageFacts.
(** ** The sync cycle against any backend *)

Section CycleFacts.

Variable server : Server.

(** Whatever the backend answers, a call issues its one request and
    raises no toast. *)
Lemma apiRequest_run : forall r w,
  exists res evs,
    apiRequest server r w = (res, log evs w)
    /\ requests evs = [r] /\ toasts evs = [].
Proof.
  intros r w. unfold apiRequest, fetch, bind, gets, emit, modify, ret. simpl.
  destruct (server (List.length (requests (events w))) r)
    as [message|response].
  - exists (Err message), [Requested r]. repeat split.
  - unfold when, console, emit, modify, ret.
    destruct (status response =? 401).
    + exists (json response),
        [Requested r; Console "Unauthorized: Token may be missing or invalid"].
      split; [|split; reflexivity]. unfold log. simpl.
      now rewrite <- app_assoc.
    + exists (json response), [Requested r]. repeat split.
Qed.

Lemma removedLoop_run : forall entries currentMap w,
  exists res evs,
    removedLoop server entries currentMap w = (res, log evs w)
    /\ loop_outcome res evs (flat_map (removal currentMap) entries).
Proof.
  induction entries as [|[k v] rest IH]; intros currentMap w.
  - exists (Ok tt), []. simpl. unfold ret. rewrite log_nil. repeat split.
  - simpl. unfold removal at 1. simpl fst.
    destruct (negb (Map_has currentMap k)).
    + destruct (apiRequest_run (ordersService_removeItemFromCart k)
                  (log [Console "Removing item from backend cart:"] w))
        as (res1 & evs1 & Hcall & Hreq1 & Hquiet1).
      unfold bindE at 1. unfold bind at 1. unfold bind at 1.
      unfold console. rewrite emit_run.
      unfold bindE at 1. unfold bind at 1. rewrite Hcall.
      destruct res1 as [value|message].
      * unfold ret at 1. rewrite log_log. simpl app.
        destruct (IH currentMap
                    (log (Console "Removing item from backend cart:"
                            :: evs1) w))
          as (res2 & evs2 & Hrest & Hquiet2 & Hout2).
        exists res2,
          ((Console "Removing item from backend cart:" :: evs1) ++ evs2)%list.
        rewrite Hrest, log_log. split; [reflexivity|]. split.
        -- rewrite toasts_app. simpl. now rewrite Hquiet1, Hquiet2.
        -- rewrite requests_app. simpl. rewrite Hreq1. simpl.
           destruct res2 as [?|?]; [now rewrite Hout2|].
           destruct Hout2 as (_ & tail & ->).
           split; [discriminate | now exists tail].
      * unfold ret at 1. rewrite log_log. simpl app.
        eexists (Err message), _. split; [reflexivity|]. split.
        -- simpl. exact Hquiet1.
        -- simpl. rewrite Hreq1. simpl.
           split; [discriminate | now eexists].
    + destruct (IH currentMap w) as (res2 & evs2 & Hrest & Hout2).
      exists res2, evs2. split; [|exact Hout2].
      unfold bindE, bind, ret. exact Hrest.
Qed.

Lemma changedLoop_run : forall entries lastMap w,
  exists res evs,
    changedLoop server entries lastMap w = (res, log evs w)
    /\ loop_outcome res evs (flat_map (change lastMap) entries).
Proof.
  induction entries as [|[k v] rest IH]; intros lastMap w.
  - exists (Ok tt), []. simpl. unfold ret. rewrite log_nil. repeat split.
  - simpl. unfold change at 1. simpl fst. simpl snd.
    assert (Hcall_then_rest : forall line r,
      exists res evs,
        bindE (console line ;;
               _ <-! apiRequest server r ;; ret (Ok tt))
          (fun _ => changedLoop server rest lastMap) w
        = (res, log evs w)
        /\ loop_outcome res evs (r :: flat_map (change lastMap) rest)).
    { intros line r.
      destruct (apiRequest_run r (log [Console line] w))
        as (res1 & evs1 & Hcall & Hreq1 & Hquiet1).
      unfold bindE at 1. unfold bind at 1. unfold bind at 1.
      unfold console. rewrite emit_run.
      unfold bindE at 1. unfold bind at 1. rewrite Hcall.
      destruct res1 as [value|message].
      - unfold ret at 1. rewrite log_log. simpl app.
        destruct (IH lastMap (log (Console line :: evs1) w))
          as (res2 & evs2 & Hrest & Hquiet2 & Hout2).
        exists res2, ((Console line :: evs1) ++ evs2)%list.
        rewrite Hrest, log_log. split; [reflexivity|]. split.
        + rewrite toasts_app. simpl. now rewrite Hquiet1, Hquiet2.
        + rewrite requests_app. simpl. rewrite Hreq1. simpl.
          destruct res2 as [?|?]; [now rewrite Hout2|].
          destruct Hout2 as (_ & tail & ->).
          split; [discriminate | now exists tail].
      - unfold ret at 1. rewrite log_log. simpl app.
        eexists (Err message), _. split; [reflexivity|]. split.
        + simpl. exact Hquiet1.
        + simpl. rewrite Hreq1. simpl.
          split; [discriminate | now eexists]. }
    destruct (Map_get lastMap k) as [lastItem|].
    + destruct (negb (quantity lastItem =? quantity v)).
      * apply Hcall_then_rest.
      * destruct (IH lastMap w) as (res2 & evs2 & Hrest & Hout2).
        exists res2, evs2. split; [|exact Hout2].
        unfold bindE, bind, ret. exact Hrest.
    + apply Hcall_then_rest.
Qed.

(** What a cycle does against any backend. [advanced] tells whether the
    baseline moved on. *)
Lemma syncCartToBackend_run : forall current w,
  exists w' evs rest (advanced : bool),
    syncCartToBackend server current w = (tt, w')
    /\ events w' = (events w ++ evs)%list
    /\ diff_requests (lastSyncedItemsRef (cartProvider w)) current
       = (requests evs ++ rest)%list
    /\ (advanced = true ->
        rest = [] /\ toasts evs = []
        /\ authProvider w' = authProvider w
        /\ localStorage w' = localStorage w)
    /\ (advanced = false -> requests evs <> [])
    /\ lastSyncedItemsRef (cartProvider w')
       = (if advanced then current
          else lastSyncedItemsRef (cartProvider w))
    /\ syncingRef (cartProvider w') = false
    /\ items (cartProvider w') = items (cartProvider w)
    /\ initialLoadRef (cartProvider w') = initialLoadRef (cartProvider w)
    /\ debounceTimeout (cartProvider w') = debounceTimeout (cartProvider w)
    /\ cart_key (localStorage w') = cart_key (localStorage w)
    /\ cartMerged_key (localStorage w') = cartMerged_key (localStorage w)
    /\ checkoutComplete_key (localStorage w')
       = checkoutComplete_key (localStorage w).
Proof.
  intros current w.
  set (lastMap := mapByProductId (lastSyncedItemsRef (cartProvider w))).
  set (currentMap := mapByProductId current).
  set (start := [Console "Syncing cart to backend. Last synced items:";
                 Console "Current items:"]).
  destruct (removedLoop_run lastMap currentMap (log start w))
    as (res1 & evs1 & Hrem & Hquiet1 & Hout1).
  destruct (changedLoop_run currentMap lastMap (log (start ++ evs1) w))
    as (res2 & evs2 & Hchg & Hquiet2 & Hout2).
  unfold syncCartToBackend.
  unfold bind at 1. unfold bind at 1. unfold gets at 1.
  unfold bind at 1. unfold console at 1. rewrite emit_run.
  unfold bind at 1. unfold console at 1. rewrite emit_run.
  rewrite log_log. simpl app.
  fold lastMap. fold currentMap. fold start.
  unfold bindE at 1. unfold bind at 1. rewrite Hrem.
  unfold diff_requests. fold lastMap. fold currentMap.
  clearbody lastMap.
  destruct res1 as [[]|message1].
  - rewrite log_log.
    unfold bindE at 1. unfold bind at 1. rewrite Hchg.
    destruct res2 as [[]|message2].
    + rewrite log_log. destruct w as [s a [its sy il base timer] p evs].
      run_app.
      eexists _, ((start ++ evs1) ++ evs2)%list, [], true.
      split; [reflexivity|]. simpl.
      rewrite !requests_app, !toasts_app, Hout1, Hout2, Hquiet1, Hquiet2.
      simpl. rewrite app_nil_r. repeat split. discriminate.
    + rewrite log_log. destruct w as [s a [its sy il base timer] p evs].
      destruct Hout2 as (Hsome & rest & Hrest).
      unfold signOut, clearAuthState. run_app.
      destruct (includes message2 "Unauthorized"); run_app;
        (eexists _, _, rest, false;
         split; [reflexivity|]; simpl;
         split; [rewrite <- ?app_assoc; reflexivity|];
         split; [unfold start; simpl; rewrite ?requests_app; simpl;
                 rewrite ?Hout1, ?Hrest, ?app_nil_r, <- ?app_assoc;
                 reflexivity|];
         split; [discriminate|];
         split; [intros _; unfold start; simpl; rewrite ?requests_app;
                 simpl; rewrite ?app_nil_r; intros Hnil;
                 apply app_eq_nil in Hnil as [_ Hnil]; now apply Hsome|];
         repeat split).
  - rewrite log_log. destruct w as [s a [its sy il base timer] p evs].
    destruct Hout1 as (Hsome & rest & Hrest).
    unfold signOut, clearAuthState. run_app.
    destruct (includes message1 "Unauthorized"); run_app;
      (eexists _, _, (rest ++ flat_map (change lastMap) currentMap)%list,
         false;
       split; [reflexivity|]; simpl;
       split; [rewrite <- ?app_assoc; reflexivity|];
       split; [unfold start; simpl; rewrite ?requests_app; simpl;
               rewrite ?Hrest, ?app_nil_r, <- ?app_assoc;
               reflexivity|];
       split; [discriminate|];
       split; [intros _; unfold start; simpl; rewrite ?requests_app;
               simpl; rewrite ?app_nil_r; intros Hnil; now apply Hsome|];
       repeat split).
Qed.

End CycleFacts.
(** ** What a cycle guarantees, and when none is started *)

Section CycleTheorems.

Lemma Map_get_in_keyed : forall (m : JsMap) k v,
  NoDup (Map_keys m) -> In (k, v) m -> Map_get m k = Some v.
Proof.
  induction m as [|[k0 v0] m IH]; intros k v Hnd Hin; [contradiction|].
  simpl in *. inversion Hnd as [|? ? Hnotin Hnd']; subst.
  destruct Hin as [[= -> ->]|Hin].
  - now rewrite String.eqb_refl.
  - destruct (k0 =? k)%string eqn:Hk; [|now apply IH].
    apply String.eqb_eq in Hk. subst k0. exfalso. apply Hnotin.
    change k with (fst (k, v)). now apply in_map.
Qed.

Lemma flat_map_all_nil : forall {A B} (f : A -> list B) (l : list A),
  (forall x, In x l -> f x = []) -> flat_map f l = [].
Proof.
  intros A B f l. induction l as [|x l IH]; simpl; intros H; [reflexivity|].
  rewrite (H x) by now left. apply IH. intros y Hy. apply H. now right.
Qed.

(** The diff of a cart against itself is empty, repeated ids or not. *)
Lemma diff_requests_same : forall c, diff_requests c c = [].
Proof.
  intros c. unfold diff_requests.
  assert (Hkeyed : keyed (mapByProductId c)).
  { unfold mapByProductId. apply setAll_keyed. split; constructor. }
  destruct Hkeyed as [_ Hnd].
  rewrite !flat_map_all_nil; [reflexivity| |].
  - intros [k v] Hin. unfold change. simpl.
    rewrite (Map_get_in_keyed _ _ _ Hnd Hin). now rewrite Z.eqb_refl.
  - intros [k v] Hin. unfold removal, Map_has. simpl.
    now rewrite (Map_get_in_keyed _ _ _ Hnd Hin).
Qed.


(** X12. A cycle run on a cart equal to the baseline sends nothing and
    raises nothing, whatever the backend; the baseline and the session stay
    as they were. *)
Theorem sync_cycle_unchanged_cart : forall server current w,
  lastSyncedItemsRef (cartProvider w) = current ->
  let cycle := syncCartToBackend server current in
  issued_by cycle w = []
  /\ raised_by cycle w = []
  /\ lastSyncedItemsRef (cartProvider (snd (cycle w))) = current
  /\ authProvider (snd (cycle w)) = authProvider w
  /\ localStorage (snd (cycle w)) = localStorage w.
Proof.
  intros server current w Hsame cycle.
  destruct (syncCartToBackend_run server current w)
    as (w1 & evs & rest & advanced & Hrun & Hevs & Hdiff & Hadv & Hstale
        & Hbase & _).
  assert (Hw' : snd (cycle w) = w1) by (unfold cycle; now rewrite Hrun).
  rewrite Hw'. rewrite <- Hw' in Hevs.
  destruct (issued_by_events cycle w evs Hevs) as [Hissued Hraised].
  rewrite Hsame, diff_requests_same in Hdiff.
  symmetry in Hdiff. apply app_eq_nil in Hdiff as [Hnone _].
  destruct advanced; [|now contradiction (Hstale eq_refl)].
  destruct (Hadv eq_refl) as (_ & Hquiet & Hauth & Hstore).
  rewrite Hissued, Hraised. now repeat split.
Qed.

Lemma sync_cycle_unchanged_cart_witness :
  issued_by
    (syncCartToBackend unauthorized [mkCartItem shirt 1])
    (signed_in [mkCartItem shirt 1] [mkCartItem shirt 1] 0)
  = [].
Proof.
  apply (sync_cycle_unchanged_cart unauthorized [mkCartItem shirt 1]
           (signed_in [mkCartItem shirt 1] [mkCartItem shirt 1] 0)).
  reflexivity.
Defined.


End CycleTheorems.
(** ** Sessions that never sync, and the stored snapshot *)

Section EffectFacts.

Lemma step_suppressed : forall server i w,
  suppressed w ->
  let w' := snd (step server i w) in
  suppressed w'
  /\ requests (events w') = requests (events w)
  /\ sync_cycles w' = sync_cycles w
  /\ lastSyncedItemsRef (cartProvider w')
     = lastSyncedItemsRef (cartProvider w).
Proof.
  intros server i [s [u last rt] [its sy il base timer] p evs] [Hwhy Htimer].
  simpl in Hwhy, Htimer. subst timer.
  destruct i as [op now|now]; unfold step.
  - unfold dispatch, itemsChanged, syncEffect, syncEffect_cleanup, saveEffect.
    run_app.
    destruct (updater op its) as [next ts].
    rewrite raise_run.
    destruct (toasts_start_no_cycle ts) as [Hcyc Hreq].
    destruct Hwhy as [Hauth|Hil];
      [destruct u; [discriminate|] | subst il];
      destruct op; try destruct u; run_app;
      unfold suppressed, sync_cycles; run_app;
      rewrite ?cycle_starts_app, ?requests_app, ?Hcyc, ?Hreq;
      simpl; rewrite ?app_nil_r; auto.
  - unfold suppressed, sync_cycles. simpl. auto.
Qed.

(** X13. While nobody is signed in, or while the initial load is not over,
    no sequence of cart mutations and waiting ever starts a cycle or sends
    a request, and the baseline does not move. *)
Theorem suppressed_session_never_syncs : forall server inputs w,
  suppressed w ->
  let w' := snd (run server inputs w) in
  requests (events w') = requests (events w)
  /\ sync_cycles w' = sync_cycles w
  /\ lastSyncedItemsRef (cartProvider w')
     = lastSyncedItemsRef (cartProvider w)
  /\ debounceTimeout (cartProvider w') = None.
Proof.
  intros server inputs.
  induction inputs as [|i inputs IH]; intros w Hw; simpl.
  - destruct Hw as [_ Htimer]. auto.
  - unfold bind. destruct (step server i w) as [[] w1] eqn:Hstep.
    destruct (step_suppressed server i w Hw) as (H1 & H2 & H3 & H4).
    rewrite Hstep in H1, H2, H3, H4. simpl in H1, H2, H3, H4.
    destruct (IH w1 H1) as (H5 & H6 & H7 & H8).
    repeat split; congruence.
Qed.

Lemma suppressed_session_never_syncs_witness :
  requests
    (events
       (snd (run accepting
               [Mutation (AddItem shirt 1) 1000;
                Mutation (AddItem jeans 2) 4000; Elapsed 9000]
               (first_load None None))))
  = [].
Proof.
  apply (suppressed_session_never_syncs accepting
           [Mutation (AddItem shirt 1) 1000;
            Mutation (AddItem jeans 2) 4000; Elapsed 9000]
           (first_load None None)).
  split; [now left | reflexivity].
Defined.

Lemma dispatch_mirrored : forall op now w,
  let w' := snd (dispatch op now w) in
  mirrored w'
  /\ items (cartProvider w') = perform (items (cartProvider w)) op.
Proof.
  intros op now [s [u last rt] [its sy il base timer] p evs].
  unfold dispatch, itemsChanged, syncEffect, syncEffect_cleanup, saveEffect,
    perform.
  run_app.
  destruct (updater op its) as [next ts].
  rewrite raise_run.
  destruct op; destruct u; destruct il; destruct sy; run_app;
    unfold mirrored; run_app; simpl; auto.
Qed.

Lemma elapse_mirrored : forall server now w,
  mirrored w -> mirrored (snd (elapse server now w)).
Proof.
  intros server now w Hw. unfold elapse, bind at 1, gets at 1.
  destruct (debounceTimeout (cartProvider w)) as [[deadline captured]|];
    [|exact Hw].
  destruct (deadline <=? now); [|exact Hw].
  unfold bind at 1.
  destruct (set_debounceTimeout None w) as [[] w0] eqn:Hset.
  assert (Hw0 : mirrored w0).
  { destruct w as [s a [its sy il base timer] p evs].
    unfold set_debounceTimeout, on_cart, modify in Hset.
    injection Hset as <-. exact Hw. }
  destruct (syncCartToBackend_run server captured w0)
    as (w1 & _ & _ & _ & Hrun & _ & _ & _ & _ & _ & _ & Hitems & _ & _
        & Hkey & _).
  rewrite Hrun. simpl. unfold mirrored in *. now rewrite Hkey, Hitems.
Qed.

(** X14. Every store mutation leaves under the ['cart'] key the snapshot
    of the store content it produced, which is the content the updater
    computes; this holds after [clearCart] as well, whose removal of the key
    is followed by the save effect writing the empty cart. Waiting, with or
    without a cycle, keeps the snapshot in step, and reading the snapshot
    back gives the store content. *)
Theorem snapshot_follows_store : forall server op now inputs w,
  let w1 := snd (dispatch op now w) in
  let w2 := snd (run server inputs w1) in
  items (cartProvider w1) = perform (items (cartProvider w)) op
  /\ mirrored w1
  /\ mirrored w2
  /\ fst (readLocalCart w2) = items (cartProvider w2).
Proof.
  intros server op now inputs w w1 w2.
  destruct (dispatch_mirrored op now w) as [Hm Hitems]. fold w1 in Hm, Hitems.
  assert (Hrun : forall inputs w0,
             mirrored w0 -> mirrored (snd (run server inputs w0))).
  { clear. induction inputs as [|i inputs IH]; intros w0 H0; [exact H0|].
    simpl. unfold bind. destruct (step server i w0) as [[] w'] eqn:Hstep.
    apply IH. replace w' with (snd (step server i w0)) by now rewrite Hstep.
    destruct i as [op now|now]; simpl.
    - apply dispatch_mirrored.
    - now apply elapse_mirrored. }
  assert (Hm2 : mirrored w2) by (apply Hrun; exact Hm).
  repeat split; try assumption.
  unfold readLocalCart, bind, gets. unfold mirrored in Hm2. now rewrite Hm2.
Qed.

End EffectFacts.
(** ** Loading: the one-shot reset and the successful load *)

Section MoreLoadFacts.

(** X15. When the [checkoutComplete] flag is set and the stored
    credentials parse, a load empties the store
    and the baseline, removes the three cart keys, ends the initial load
    and raises nothing; it asks the backend to clear its cart if and only
    if somebody is signed in, whatever that call comes to, and it does not
    look at the stored snapshot. *)
Theorem loadCart_after_checkout : forall server w,
  credentials_parse w ->
  is_true (checkoutComplete_key (localStorage w)) = true ->
  let w' := snd (loadCart server w) in
  items (cartProvider w') = []
  /\ lastSyncedItemsRef (cartProvider w') = []
  /\ initialLoadRef (cartProvider w') = false
  /\ cart_key (localStorage w') = None
  /\ cartMerged_key (localStorage w') = None
  /\ checkoutComplete_key (localStorage w') = None
  /\ issued_by (loadCart server) w
     = (if isAuthenticated w then [ordersService_clearCart] else [])
  /\ raised_by (loadCart server) w = []
  /\ authProvider w' = authProvider w.
Proof.
  intros server [[ck cm cc at' uk] [u last rt] [its sy il base timer] p evs]
    _ Hcc. simpl in Hcc.
  assert (Hrun : exists evs',
    loadCart server
      (mkWorld (mkStorage ck cm cc at' uk) (mkAuth u last rt)
         (mkCartProvider its sy il base timer) p evs)
    = (tt, mkWorld (mkStorage None None None at' uk) (mkAuth u last rt)
             (mkCartProvider [] sy false [] timer) p (evs ++ evs')%list)
    /\ requests evs'
       = match u with
         | Some _ => [ordersService_clearCart]
         | None => []
         end
    /\ toasts evs' = []).
  { unfold loadCart. run_app. rewrite Hcc. run_app.
    destruct u as [userData|]; run_app.
    - match goal with
      | |- context [apiRequest server ?r ?w0] =>
          destruct (apiRequest_run server r w0)
            as (res & evs' & Hcall & Hreq & Hquiet);
          rewrite Hcall
      end.
      exists evs'. unfold log. simpl. now repeat split.
    - exists []. rewrite app_nil_r. now repeat split. }
  destruct Hrun as (evs' & Hrun & Hreq & Hquiet).
  assert (Hevs : events (snd (loadCart server
      (mkWorld (mkStorage ck cm cc at' uk) (mkAuth u last rt)
         (mkCartProvider its sy il base timer) p evs)))
      = (evs ++ evs')%list) by now rewrite Hrun.
  destruct (issued_by_events (loadCart server) _ evs' Hevs)
    as [Hissued Hraised].
  rewrite Hissued, Hraised, Hrun. simpl.
  repeat split; try assumption.
  rewrite Hreq. now destruct u.
Qed.

Lemma loadCart_after_checkout_witness :
  let w := mkWorld
             (mkStorage (Some (garbage "{oops")) None (Some "true") None None)
             (mkAuth (Some customer) 0 true)
             (mkCartProvider [mkCartItem shirt 1] false true [] None)
             false [] in
  items (cartProvider (snd (loadCart accepting w))) = []
  /\ issued_by (loadCart accepting) w = [ordersService_clearCart].
Proof.
  intros w.
  assert (Hparse : credentials_parse w) by discriminate.
  destruct (loadCart_after_checkout accepting w Hparse eq_refl)
    as (Hitems & _ & _ & _ & _ & _ & Hissued & _).
  split; [exact Hitems | exact Hissued].
Defined.

(** A call whose body is known fulfils with that body. *)
Lemma apiRequest_body : forall server r w value,
  body_of (server (List.length (requests (events w))) r) = Some value ->
  exists evs,
    apiRequest server r w = (Ok value, log evs w)
    /\ requests evs = [r] /\ toasts evs = [].
Proof.
  intros server r w value Hbody.
  unfold apiRequest, fetch, bind, gets, emit, modify, ret. simpl.
  unfold body_of in Hbody.
  destruct (server (List.length (requests (events w))) r)
    as [message|response]; [discriminate|].
  destruct (json response) as [v|] eqn:Hjson; [|discriminate].
  injection Hbody as ->.
  unfold when, console, emit, modify, ret.
  destruct (status response =? 401).
  - exists [Requested r;
            Console "Unauthorized: Token may be missing or invalid"].
    split; [|split; reflexivity]. unfold log. simpl.
    now rewrite <- app_assoc.
  - exists [Requested r]. repeat split.
Qed.

(** X16. With stored credentials that parse, a signed-in load against a
    backend whose merge endpoint fulfils
    and whose cart endpoint answers with [rows] adopts [rows] as the store
    content and as the baseline, drops the local snapshot and ends the
    initial load. It pushes the guest cart first exactly when that cart is
    not empty and no merge is on record, and then records the merge; it
    raises no toast. *)
Theorem loadCart_adopts_backend : forall server w rows,
  credentials_parse w ->
  isAuthenticated w = true ->
  is_true (checkoutComplete_key (localStorage w)) = false ->
  (forall n, body_of (server n ordersService_getUserCart)
             = Some (JsonCart rows)) ->
  (forall n c, fulfils (server n (ordersService_mergeCart c)) = true) ->
  let localCart := fst (readLocalCart w) in
  let w' := snd (loadCart server w) in
  items (cartProvider w') = rows
  /\ lastSyncedItemsRef (cartProvider w') = rows
  /\ initialLoadRef (cartProvider w') = false
  /\ cart_key (localStorage w') = None
  /\ cartMerged_key (localStorage w')
     = (if merge_due localCart w then Some "true"
        else cartMerged_key (localStorage w))
  /\ issued_by (loadCart server) w
     = ((if merge_due localCart w
         then [ordersService_mergeCart localCart] else [])
        ++ [ordersService_getUserCart])%list
  /\ raised_by (loadCart server) w = [].
Proof.
  intros server [[ck cm cc at' uk] [u last rt] [its sy il base timer] p evs]
    rows _ Hauth Hcc Hcart Hmerge localCart w'.
  simpl in Hauth, Hcc. destruct u as [userData|]; [|discriminate].
  assert (Hrun : exists evs',
    loadCart server
      (mkWorld (mkStorage ck cm cc at' uk) (mkAuth (Some userData) last rt)
         (mkCartProvider its sy il base timer) p evs)
    = (tt, mkWorld
             (mkStorage None
                (if merge_due localCart
                      (mkWorld (mkStorage ck cm cc at' uk)
                         (mkAuth (Some userData) last rt)
                         (mkCartProvider its sy il base timer) p evs)
                 then Some "true" else cm) cc at' uk)
             (mkAuth (Some userData) last rt)
             (mkCartProvider rows sy false rows timer) p
             (evs ++ evs')%list)
    /\ requests evs'
       = ((if merge_due localCart
                (mkWorld (mkStorage ck cm cc at' uk)
                   (mkAuth (Some userData) last rt)
                   (mkCartProvider its sy il base timer) p evs)
           then [ordersService_mergeCart localCart] else [])
          ++ [ordersService_getUserCart])%list
    /\ toasts evs' = []).
  { subst localCart.
    unfold loadCart, readLocalCart, loadCart_try, merge_due, mapBackendCart.
    run_app. rewrite Hcc.
    assert (Hmerge' : forall n c, exists value,
               body_of (server n (ordersService_mergeCart c)) = Some value).
    { intros n c. specialize (Hmerge n c). unfold fulfils in Hmerge.
      unfold body_of.
      destruct (server n (ordersService_mergeCart c)); [discriminate|].
      destruct (json response); [now eexists | discriminate]. }
    destruct ck as [[|text|stored]|];
      cbn [snapshot_truthy JSON_parse]; run_app;
      cbn [List.length Z.of_nat Z.ltb Z.compare andb];
      try (match goal with
           | |- context [if ?c then _ else _] => destruct c
           end);
      run_app;
      try (match goal with
           | |- context [apiRequest server (ordersService_mergeCart ?c) ?w0] =>
               let value := fresh "value" in
               let evs1 := fresh "evs" in
               let Hb := fresh "Hb" in
               destruct (Hmerge' (List.length (requests (events w0))) c)
                 as (value & Hb);
               destruct (apiRequest_body server _ w0 value Hb)
                 as (evs1 & -> & ? & ?)
           end);
      run_app;
      match goal with
      | |- context [apiRequest server ordersService_getUserCart ?w0] =>
          let evs2 := fresh "evs" in
          destruct (apiRequest_body server _ w0 (JsonCart rows)
                      (Hcart (List.length (requests (events w0)))))
            as (evs2 & -> & ? & ?)
      end;
      run_app;
      (eexists; split; [rewrite <- ?app_assoc; reflexivity|]);
      rewrite ?requests_app, ?toasts_app; simpl;
      repeat match goal with
             | H : requests _ = _ |- _ => rewrite H; clear H
             | H : toasts _ = _ |- _ => rewrite H; clear H
             end;
      simpl; split; reflexivity. }
  destruct Hrun as (evs' & Hrun & Hreq & Hquiet).
  assert (Hevs : events (snd (loadCart server
      (mkWorld (mkStorage ck cm cc at' uk) (mkAuth (Some userData) last rt)
         (mkCartProvider its sy il base timer) p evs)))
      = (evs ++ evs')%list) by now rewrite Hrun.
  destruct (issued_by_events (loadCart server) _ evs' Hevs)
    as [Hissued Hraised].
  unfold w'. rewrite Hissued, Hraised, Hrun. simpl.
  repeat split; assumption.
Qed.

Lemma loadCart_adopts_backend_witness :
  let w := first_load (Some (stringified [mkCartItem shirt 2]))
             (Some customer) in
  items (cartProvider
           (snd (loadCart (backend_cart [mkCartItem shirt 5]) w)))
  = [mkCartItem shirt 5]
  /\ issued_by (loadCart (backend_cart [mkCartItem shirt 5])) w
     = [ordersService_mergeCart [mkCartItem shirt 2];
        ordersService_getUserCart].
Proof.
  intros w.
  assert (Hparse : credentials_parse w) by discriminate.
  destruct (loadCart_adopts_backend (backend_cart [mkCartItem shirt 5]) w
              [mkCartItem shirt 5] Hparse eq_refl eq_refl
              (fun n => eq_refl) (fun n c => eq_refl))
    as (Hitems & _ & _ & _ & _ & Hissued & _).
  split; [exact Hitems | exact Hissued].
Defined.


End MoreLoadFacts.
(** ** The session guard *)

(** Brings the index of the next request into the form [S n]. *)
Ltac next_index :=
  rewrite ?requests_app; cbn [requests flat_map app];
  rewrite ?length_app; cbn [List.length]; rewrite ?Nat.add_1_r.

Ltac finish_events :=
  rewrite ?requests_app, ?toasts_app; simpl; rewrite <- ?app_assoc; simpl;
  rewrite ?app_nil_r, ?skipn_length_app, ?skipn_all.

Section SessionFacts.

(** X17. Signing out, with the effects it sets off in the cart provider,
    leaves nobody signed in, no credentials and no cached profile in
    storage, an empty store and baseline, the snapshot of the empty cart
    under the cart key, no merge flag, the initial-load flag up again and
    no debounce timer pending; it sends nothing and raises the sign-out
    toast only. The [checkoutComplete] flag is removed if it was ['true']
    and left as found otherwise; the time of the last refresh attempt and
    the single-flight flag are kept. While somebody is signed in the logout
    effect on its own does nothing. *)
Theorem logout_resets_session_and_cart : forall server now w,
  isAuthenticated w = true ->
  let logout := signOut ;; signedOut server now in
  let w' := snd (logout w) in
  user (authProvider w') = None
  /\ lastRefreshAttempt (authProvider w') = lastRefreshAttempt (authProvider w)
  /\ localStorage w'
     = mkStorage (Some (stringified [])) None
         (if is_true (checkoutComplete_key (localStorage w)) then None
          else checkoutComplete_key (localStorage w))
         None None
  /\ items (cartProvider w') = []
  /\ lastSyncedItemsRef (cartProvider w') = []
  /\ initialLoadRef (cartProvider w') = true
  /\ debounceTimeout (cartProvider w') = None
  /\ syncingRef (cartProvider w') = syncingRef (cartProvider w)
  /\ issued_by logout w = []
  /\ raised_by logout w = [toast_success "Signed out successfully"]
  /\ logoutEffect w = (tt, w).
Proof.
  intros server now
    [[ck cm cc at' uk] [u last rt] [its sy il base timer] p evs] Hauth.
  destruct u as [u|]; [clear Hauth | discriminate].
  unfold issued_by, raised_by, signedOut, signOut, clearAuthState, loadCart,
    readLocalCart, logoutEffect, syncEffect, syncEffect_cleanup,
    itemsChanged, saveEffect.
  run_app.
  destruct (is_true cc) eqn:Hcc; run_app;
    [|destruct ck as [[|text|stored]|]; cbn [snapshot_truthy JSON_parse];
      run_app];
    rewrite <- ?app_assoc; simpl;
    rewrite ?requests_app, ?toasts_app; simpl;
    rewrite ?app_nil_r, ?skipn_length_app, ?skipn_all;
    repeat split.
Qed.

Lemma logout_resets_session_and_cart_witness :
  let w := signed_in [mkCartItem shirt 2] [mkCartItem shirt 2] 0 in
  let w' := snd ((signOut ;; signedOut accepting 1000) w) in
  items (cartProvider w') = []
  /\ cart_key (localStorage w') = Some (stringified [])
  /\ isAuthenticated w' = false.
Proof.
  intros w w'.
  destruct (logout_resets_session_and_cart accepting 1000 w eq_refl)
    as (Huser & _ & Hstore & Hitems & _).
  split; [exact Hitems|]. split.
  - fold w' in Hstore. now rewrite Hstore.
  - unfold isAuthenticated. fold w' in Huser. now rewrite Huser.
Defined.

(** X18. With a refresh token in storage, [attemptTokenRefresh] calls the
    refresh endpoint once. If that call settles with an ok status and a
    JSON body carrying a non-empty token, the stored access token is
    replaced by it and the refresh token kept, the profile is fetched, and
    the result is true whether or not the profile came back. In every other
    case the result is false and the session is cleared: no user, no stored
    credentials or profile, no further request. The cart provider is never
    touched and no toast raised. *)
Theorem attemptTokenRefresh_outcomes : forall server w access refresh,
  authTokens_key (localStorage w) = Some (tokens_json access (Some refresh)) ->
  nonempty refresh = true ->
  let n := List.length (requests (events w)) in
  let out := attemptTokenRefresh server w in
  match renewed (server n (authService_refreshToken refresh)) with
  | Some token =>
      fst out = Ok true
      /\ authTokens_key (localStorage (snd out))
         = Some (tokens_json (Some token) (Some refresh))
      /\ issued_by (attemptTokenRefresh server) w
         = [authService_refreshToken refresh; authService_getUserProfile]
      /\ user (authProvider (snd out))
         = match body_of (server (S n) authService_getUserProfile) with
           | Some profile => Some profile
           | None => user (authProvider w)
           end
  | None =>
      fst out = Ok false
      /\ user (authProvider (snd out)) = None
      /\ authTokens_key (localStorage (snd out)) = None
      /\ user_key (localStorage (snd out)) = None
      /\ issued_by (attemptTokenRefresh server) w
         = [authService_refreshToken refresh]
  end
  /\ cartProvider (snd out) = cartProvider w
  /\ raised_by (attemptTokenRefresh server) w = [].
Proof.
  intros server [[ck cm cc at' uk] [u last rt] c p evs] access refresh
    Htokens Hrefresh.
  simpl in Htokens. subst at'.
  unfold issued_by, raised_by, attemptTokenRefresh, read_authTokens,
    authService_refreshToken_call, apiRequest, fetch, clearAuthState,
    renewed, body_of.
  run_app. rewrite Hrefresh. run_app.
  repeat (break_match; run_app; next_index);
    try discriminate; finish_events; repeat split; congruence.
Qed.

Lemma attemptTokenRefresh_outcomes_witness :
  let w := signed_in [] [] 0 in
  fst (attemptTokenRefresh unauthorized w) = Ok false
  /\ user (authProvider (snd (attemptTokenRefresh unauthorized w))) = None.
Proof.
  intros w.
  pose proof (attemptTokenRefresh_outcomes unauthorized w
                (Some "access-1") "refresh-1" eq_refl eq_refl) as H.
  simpl in H. destruct H as ((Hout & Huser & _) & _).
  split; [exact Hout | exact Huser].
Defined.

(** X19. Outside the cooldown and with an access token in storage,
    [refreshToken] takes any profile call that settles with a JSON body for
    a valid session, whatever its status: it returns true after that single
    request, with the body as the user, in memory and in storage, and the
    stored credentials as they were. *)
Theorem refreshToken_trusts_any_answer : forall server now w access refresh
  profile,
  2000 <= now - lastRefreshAttempt (authProvider w) ->
  authTokens_key (localStorage w)
  = Some (tokens_json (Some access) refresh) ->
  nonempty access = true ->
  body_of (server (List.length (requests (events w)))
             authService_getUserProfile) = Some profile ->
  let out := refreshToken server now w in
  fst out = true
  /\ issued_by (refreshToken server now) w = [authService_getUserProfile]
  /\ user (authProvider (snd out)) = Some profile
  /\ user_key (localStorage (snd out)) = Some profile
  /\ authTokens_key (localStorage (snd out))
     = authTokens_key (localStorage w)
  /\ lastRefreshAttempt (authProvider (snd out)) = now.
Proof.
  intros server now [[ck cm cc at' uk] [u last rt] c p evs] access refresh
    profile Hge Htokens Haccess Hbody.
  simpl in Hge, Htokens, Hbody. subst at'. apply Z.ltb_ge in Hge.
  unfold issued_by, refreshToken, refreshToken_of, read_authTokens, apiRequest, fetch,
    body_of in *.
  run_app. rewrite Hge. run_app. cbn [truthy]. rewrite Haccess. run_app.
  repeat (break_match; run_app);
    try discriminate; finish_events; repeat split; congruence.
Qed.

Lemma refreshToken_trusts_any_answer_witness :
  let w := signed_in [] [] 0 in
  unauthorized 0%nat authService_getUserProfile
  = fetch_resolves (mkResponse 401 (Ok JsonObject))
  /\ fst (refreshToken unauthorized 5000 w) = true
  /\ user (authProvider (snd (refreshToken unauthorized 5000 w)))
     = Some JsonObject.
Proof.
  intros w.
  assert (Hge : 2000 <= 5000 - lastRefreshAttempt (authProvider w))
    by (simpl; lia).
  destruct (refreshToken_trusts_any_answer unauthorized 5000 w
              "access-1" (Some "refresh-1") JsonObject
              Hge eq_refl eq_refl eq_refl)
    as (Hout & _ & Huser & _).
  split; [reflexivity|]. split; [exact Hout | exact Huser].
Defined.

(** X20. Outside the cooldown and with no credentials in storage (no
    record, or one with neither token), [refreshToken] returns false
    without any request; it records the time of the attempt and changes
    nothing else, so a user still held in memory stays signed in. With a
    record that does not parse it also returns false without a request,
    and clears the session. *)
Theorem refreshToken_without_credentials : forall server now w,
  2000 <= now - lastRefreshAttempt (authProvider w) ->
  let out := refreshToken server now w in
  match authTokens_key (localStorage w) with
  | None | Some (tokens_json None None) =>
      fst out = false
      /\ snd out
         = mkWorld (localStorage w)
             (mkAuth (user (authProvider w)) now
                (refreshTimer (authProvider w)))
             (cartProvider w) (isProcessing w) (events w)
  | Some tokens_garbage =>
      fst out = false
      /\ events (snd out) = events w
      /\ user (authProvider (snd out)) = None
      /\ authTokens_key (localStorage (snd out)) = None
      /\ user_key (localStorage (snd out)) = None
  | Some (tokens_json _ _) => True
  end.
Proof.
  intros server now [[ck cm cc at' uk] [u last rt] c p evs] Hge.
  simpl in Hge. apply Z.ltb_ge in Hge.
  unfold refreshToken, refreshToken_of, attemptTokenRefresh, read_authTokens,
    clearAuthState.
  run_app. rewrite Hge.
  destruct at' as [[|[a|] [r|]]|]; run_app; cbn [truthy]; run_app;
    auto; repeat split.
Qed.

Lemma refreshToken_without_credentials_witness :
  let w := first_load None None in
  fst (refreshToken accepting 5000 w) = false
  /\ events (snd (refreshToken accepting 5000 w)) = [].
Proof.
  intros w.
  assert (Hge : 2000 <= 5000 - lastRefreshAttempt (authProvider w))
    by (simpl; lia).
  pose proof (refreshToken_without_credentials accepting 5000 w Hge) as H.
  simpl in H. destruct H as [Hout Hw].
  split; [exact Hout | exact (f_equal events Hw)].
Defined.

End SessionFacts.
(** ** Checkout with a cart that is not empty *)

Ltac run_app_in H :=
  cbv beta iota zeta delta
    [bind bindE gets modify ret when log
     on_storage on_auth on_cart setIsProcessing emit toast navigate console
     store_cart store_cartMerged store_checkoutComplete store_authTokens
     store_user setUser setLastRefreshAttempt setRefreshTimer
     setItems set_syncingRef set_initialLoadRef set_lastSyncedItemsRef
     set_debounceTimeout
     localStorage authProvider cartProvider isProcessing events
     cart_key cartMerged_key checkoutComplete_key authTokens_key user_key
     user lastRefreshAttempt refreshTimer
     items syncingRef initialLoadRef lastSyncedItemsRef debounceTimeout
     isAuthenticated negb fst snd] in H.

Section OrderFacts.

Lemma orderItems_valid : forall its,
  Forall (fun item => pid item <> "") its ->
  orderItems its = Ok (map order_line its).
Proof.
  induction its as [|item its IH]; simpl; intros Hall; [reflexivity|].
  inversion Hall as [|? ? Hid Hrest]; subst.
  unfold nonempty. apply String.eqb_neq in Hid. rewrite Hid. simpl.
  now rewrite (IH Hrest).
Qed.

Lemma orderItems_invalid : forall its,
  Exists (fun item => pid item = "") its ->
  orderItems its = Err "Invalid product data in cart".
Proof.
  induction its as [|item its IH]; simpl; intros Hex.
  - inversion Hex.
  - unfold nonempty. destruct (pid item =? "")%string eqn:Hid; simpl;
      [reflexivity|].
    apply String.eqb_neq in Hid.
    inversion Hex as [? ? Hhere|? ? Hthere]; subst; [contradiction|].
    now rewrite (IH Hthere).
Qed.

(** X21. The order lines are built exactly when every item of the cart
    has a non-empty product id, and then there is one line per item, in
    order, with the item's product id, quantity and unit price; otherwise
    the error is the invalid-product one. *)
Theorem orderItems_spec : forall its,
  match orderItems its with
  | Ok lines =>
      Forall (fun item => pid item <> "") its
      /\ lines = map order_line its
  | Err message =>
      message = "Invalid product data in cart"
      /\ Exists (fun item => pid item = "") its
  end.
Proof.
  induction its as [|item its IH]; simpl.
  - split; [constructor | reflexivity].
  - unfold nonempty. destruct (pid item =? "")%string eqn:Hid; simpl.
    + apply String.eqb_eq in Hid. split; [reflexivity | now left].
    + apply String.eqb_neq in Hid.
      destruct (orderItems its) as [lines|message].
      * destruct IH as [Hall ->]. split; [now constructor | reflexivity].
      * destruct IH as [-> Hex]. split; [reflexivity | now right].
Qed.

Lemma orderItems_ok : forall its lines,
  orderItems its = Ok lines -> Forall (fun item => pid item <> "") its.
Proof.
  induction its as [|item its IH]; simpl; intros lines Hlines; [constructor|].
  unfold nonempty in Hlines.
  destruct (pid item =? "")%string eqn:Hid; simpl in Hlines; [discriminate|].
  apply String.eqb_neq in Hid.
  destruct (orderItems its) as [rest|m]; [|discriminate].
  constructor; [assumption | now apply (IH rest)].
Qed.

(** The amount the lines of an order add up to. *)
Lemma lines_amount_acc : forall its acc,
  fold_left (fun total line => total + line_price line * line_quantity line)
    (map order_line its) acc
  = fold_left (fun total item => total + price (product item) * quantity item)
      its acc.
Proof.
  induction its as [|item its IH]; simpl; intros acc; [reflexivity|].
  apply IH.
Qed.

(** X30. Whenever the order lines are built, the total amount sent with
    the order is the sum of unit price times quantity over those lines. *)
Theorem order_total_matches_lines : forall its lines,
  orderItems its = Ok lines ->
  totalPrice its
  = fold_left (fun total line => total + line_price line * line_quantity line)
      lines 0.
Proof.
  intros its lines Hlines.
  assert (Hvalid : Forall (fun item => pid item <> "") its)
    by exact (orderItems_ok its lines Hlines).
  rewrite (orderItems_valid its Hvalid) in Hlines.
  injection Hlines as <-.
  unfold totalPrice. symmetry. apply lines_amount_acc.
Qed.

Lemma order_total_matches_lines_witness :
  totalPrice [mkCartItem shirt 2; mkCartItem jeans 1] = 1800.
Proof.
  rewrite (order_total_matches_lines [mkCartItem shirt 2; mkCartItem jeans 1]
             _ eq_refl).
  reflexivity.
Defined.

Lemma apiRequest_rejects : forall server r w message,
  server (List.length (requests (events w))) r = fetch_rejects message ->
  apiRequest server r w = (Err message, log [Requested r] w).
Proof.
  intros server r w message H.
  unfold apiRequest, fetch, bind, gets, emit, modify, ret. simpl.
  now rewrite H.
Qed.

(** X22. When the stored credentials parse, the session refresh passes and
    the order endpoint rejects
    the call, a checkout with a cart of valid items rejects with the same
    message: after the session requests it has sent the one order request,
    built from the cart, the address and the payment method; the store, the
    baseline and the stored snapshot are as they were, one error toast is
    raised, and the processing flag is down. *)
Theorem checkout_order_rejected : forall server now shippingAddress
  paymentMethod w message,
  credentials_parse w ->
  fst (checkout_refresh server now w) = true ->
  items (cartProvider w) <> [] ->
  Forall (fun item => pid item <> "") (items (cartProvider w)) ->
  (forall n orderData,
      server n (ordersService_createOrder orderData)
      = fetch_rejects message) ->
  let checkout := processCheckout server now shippingAddress paymentMethod in
  let orderData :=
    {| order_items := map order_line (items (cartProvider w));
       total_amount := totalPrice (items (cartProvider w));
       payment_method := paymentMethod;
       shipping := shippingAddress |} in
  fst (checkout w) = Err message
  /\ (exists session_calls,
         (forall r, In r session_calls -> is_session_call r = true)
         /\ issued_by checkout w
            = (session_calls ++ [ordersService_createOrder orderData])%list)
  /\ raised_by checkout w = [checkout_error_toast message]
  /\ cartProvider (snd (checkout w)) = cartProvider w
  /\ cart_key (localStorage (snd (checkout w))) = cart_key (localStorage w)
  /\ isProcessing (snd (checkout w)) = false.
Proof.
  intros server now shippingAddress paymentMethod
    [s a [its sy il base timer] p evs] message _ Hrefresh Hits Hvalid Horder
    checkout orderData.
  simpl in Hits, Hvalid.
  assert (Hlines : orderItems its = Ok (map order_line its)).
  { exact (orderItems_valid its Hvalid). }
  unfold checkout_refresh, checkout_prelude in Hrefresh. run_app_in Hrefresh.
  assert (Hrun : exists evs',
    checkout (mkWorld s a (mkCartProvider its sy il base timer) p evs)
    = (Err message,
       mkWorld
         (localStorage (snd (checkout
            (mkWorld s a (mkCartProvider its sy il base timer) p evs))))
         (authProvider (snd (checkout
            (mkWorld s a (mkCartProvider its sy il base timer) p evs))))
         (mkCartProvider its sy il base timer) false (evs ++ evs')%list)
    /\ (exists session_calls,
          (forall r, In r session_calls -> is_session_call r = true)
          /\ requests evs'
             = (session_calls ++ [ordersService_createOrder orderData])%list)
    /\ toasts evs' = [checkout_error_toast message]
    /\ cart_key (localStorage (snd (checkout
          (mkWorld s a (mkCartProvider its sy il base timer) p evs))))
       = cart_key s).
  { unfold checkout, processCheckout. run_app.
    match goal with
    | |- context [refreshToken server now ?w0] =>
        destruct (refreshToken_frame server now w0)
          as (evsR & He & Hsess & Hquiet & Hcart & Hck & _ & _);
        destruct (refreshToken server now w0) as [b [s1 a1 c1 p1 evs1]]
    end.
    simpl in He, Hcart, Hck, Hrefresh. subst evs1 c1 b. run_app.
    destruct its as [|item rest]; [contradiction|].
    cbn [List.length Nat.eqb]. rewrite Hlines. run_app.
    match goal with
    | |- context [apiRequest server ?r ?w0] =>
        rewrite (apiRequest_rejects server r w0 message (Horder _ _))
    end.
    run_app. unfold checkout_error_toast.
    destruct (is_auth_failure message); run_app;
      (eexists; split; [rewrite <- ?app_assoc; reflexivity|];
       split; [exists (requests evsR); split; [exact Hsess|];
               rewrite ?requests_app; simpl;
               now rewrite ?app_nil_r|];
       split; [rewrite ?toasts_app, ?Hquiet; reflexivity | exact Hck]). }
  destruct Hrun as (evs' & Hrun & Hcalls & Htoasts & Hkey).
  assert (Hevs : events (snd (checkout
      (mkWorld s a (mkCartProvider its sy il base timer) p evs)))
      = (evs ++ evs')%list) by now rewrite Hrun.
  destruct (issued_by_events checkout _ evs' Hevs) as [Hissued Hraised].
  rewrite Hissued, Hraised.
  split; [now rewrite Hrun|]. split; [exact Hcalls|].
  split; [exact Htoasts|]. rewrite Hrun at 1 3. simpl.
  repeat split. exact Hkey.
Qed.

Lemma checkout_order_rejected_witness :
  let w := signed_in [mkCartItem shirt 2] [mkCartItem shirt 2] 0 in
  fst (processCheckout order_down 5000 home cod w) = Err "Failed to fetch"
  /\ cartProvider (snd (processCheckout order_down 5000 home cod w))
     = cartProvider w.
Proof.
  intros w.
  assert (Hits : items (cartProvider w) <> []) by discriminate.
  assert (Hvalid : Forall (fun item => pid item <> "") (items (cartProvider w)))
    by (repeat constructor; discriminate).
  assert (Hparse : credentials_parse w) by discriminate.
  destruct (checkout_order_rejected order_down 5000 home cod w
              "Failed to fetch" Hparse eq_refl Hits Hvalid
              (fun n orderData => eq_refl))
    as (Hout & _ & _ & Hcart & _).
  split; [exact Hout | exact Hcart].
Defined.

(** X23. When the stored credentials parse, the session refresh passes and
    the order endpoint answers
    with a JSON body, a checkout with a cart of valid items returns that
    body: after the session requests it has sent the one order request built
    from the cart, it raises the order toast and the cart-cleared toast,
    empties the store, leaves under the cart key the snapshot of the empty
    cart, removes the merge and checkout flags, and lowers the processing
    flag. The baseline is not touched, so the emptied cart is still to be
    synced. *)
Theorem checkout_order_accepted : forall server now shippingAddress
  paymentMethod w response,
  credentials_parse w ->
  fst (checkout_refresh server now w) = true ->
  items (cartProvider w) <> [] ->
  Forall (fun item => pid item <> "") (items (cartProvider w)) ->
  (forall n orderData,
      body_of (server n (ordersService_createOrder orderData))
      = Some response) ->
  let checkout := processCheckout server now shippingAddress paymentMethod in
  let orderData :=
    {| order_items := map order_line (items (cartProvider w));
       total_amount := totalPrice (items (cartProvider w));
       payment_method := paymentMethod;
       shipping := shippingAddress |} in
  fst (checkout w) = Ok (Some response)
  /\ (exists session_calls,
         (forall r, In r session_calls -> is_session_call r = true)
         /\ issued_by checkout w
            = (session_calls ++ [ordersService_createOrder orderData])%list)
  /\ raised_by checkout w
     = [toast_success ("Order #" ++ response_id response
                       ++ " placed successfully!");
        toast_success "Cart cleared"]
  /\ items (cartProvider (snd (checkout w))) = []
  /\ lastSyncedItemsRef (cartProvider (snd (checkout w)))
     = lastSyncedItemsRef (cartProvider w)
  /\ cart_key (localStorage (snd (checkout w))) = Some (stringified [])
  /\ cartMerged_key (localStorage (snd (checkout w))) = None
  /\ checkoutComplete_key (localStorage (snd (checkout w))) = None
  /\ isProcessing (snd (checkout w)) = false.
Proof.
  intros server now shippingAddress paymentMethod
    [s a [its sy il base timer] p evs] response _ Hrefresh Hits Hvalid Horder
    checkout orderData.
  simpl in Hits, Hvalid.
  assert (Hlines : orderItems its = Ok (map order_line its)).
  { exact (orderItems_valid its Hvalid). }
  unfold checkout_refresh, checkout_prelude in Hrefresh. run_app_in Hrefresh.
  assert (Hrun : exists evs' s' a' c',
    checkout (mkWorld s a (mkCartProvider its sy il base timer) p evs)
    = (Ok (Some response), mkWorld s' a' c' false (evs ++ evs')%list)
    /\ (exists session_calls,
          (forall r, In r session_calls -> is_session_call r = true)
          /\ requests evs'
             = (session_calls ++ [ordersService_createOrder orderData])%list)
    /\ toasts evs'
       = [toast_success ("Order #" ++ response_id response
                         ++ " placed successfully!");
          toast_success "Cart cleared"]
    /\ items c' = [] /\ lastSyncedItemsRef c' = base
    /\ cart_key s' = Some (stringified [])
    /\ cartMerged_key s' = None /\ checkoutComplete_key s' = None).
  { unfold checkout, processCheckout. run_app.
    match goal with
    | |- context [refreshToken server now ?w0] =>
        destruct (refreshToken_frame server now w0)
          as (evsR & He & Hsess & Hquiet & Hcart & Hck & _ & _);
        destruct (refreshToken server now w0)
          as [b [[ck1 cm1 cc1 at1 uk1] [u1 last1 rt1] c1 p1 evs1]]
    end.
    simpl in He, Hcart, Hck, Hrefresh. subst evs1 c1 b. run_app.
    destruct its as [|item rest]; [contradiction|].
    cbn [List.length Nat.eqb]. rewrite Hlines. run_app.
    match goal with
    | |- context [apiRequest server ?r ?w0] =>
        destruct (apiRequest_body server r w0 response (Horder _ _))
          as (evsO & -> & HreqO & HquietO)
    end.
    unfold dispatch, updater, clearCart, raise, itemsChanged, syncEffect,
      syncEffect_cleanup, saveEffect.
    run_app. cbn [fold_right]. run_app.
    destruct u1; destruct il; destruct sy; run_app;
      (eexists _, _, _, _; split; [rewrite <- ?app_assoc; reflexivity|];
       split; [exists (requests evsR); split; [exact Hsess|];
               rewrite ?requests_app, HreqO; simpl;
               now rewrite ?app_nil_r|];
       split; [rewrite ?toasts_app, ?Hquiet, ?HquietO; reflexivity|];
       repeat split). }
  destruct Hrun as (evs' & s' & a' & c' & Hrun & Hcalls & Htoasts & Hitems
                    & Hbase & Hkey & Hcm & Hcc).
  assert (Hevs : events (snd (checkout
      (mkWorld s a (mkCartProvider its sy il base timer) p evs)))
      = (evs ++ evs')%list) by now rewrite Hrun.
  destruct (issued_by_events checkout _ evs' Hevs) as [Hissued Hraised].
  rewrite Hissued, Hraised, Hrun. simpl.
  repeat split; assumption.
Qed.

Lemma checkout_order_accepted_witness :
  let w := signed_in [mkCartItem shirt 2] [mkCartItem shirt 2] 0 in
  fst (processCheckout order_taker 5000 home cod w)
  = Ok (Some (JsonOrder "o-17"))
  /\ items (cartProvider (snd (processCheckout order_taker 5000 home cod w)))
     = [].
Proof.
  intros w.
  assert (Hits : items (cartProvider w) <> []) by discriminate.
  assert (Hvalid : Forall (fun item => pid item <> "") (items (cartProvider w)))
    by (repeat constructor; discriminate).
  assert (Hparse : credentials_parse w) by discriminate.
  destruct (checkout_order_accepted order_taker 5000 home cod w
              (JsonOrder "o-17") Hparse eq_refl Hits Hvalid
              (fun n orderData => eq_refl))
    as (Hout & _ & _ & Hitems & _).
  split; [exact Hout | exact Hitems].
Defined.

(** X24. When the session refresh passes and some item of a cart that is
    not empty has an empty product id, the checkout rejects with the
    invalid-product error without sending any order request: only session
    requests go out, that error is the one toast raised, and the store, the
    baseline and the stored snapshot are as they were. *)
Theorem checkout_invalid_item : forall server now shippingAddress
  paymentMethod w,
  fst (checkout_refresh server now w) = true ->
  items (cartProvider w) <> [] ->
  Exists (fun item => pid item = "") (items (cartProvider w)) ->
  let checkout := processCheckout server now shippingAddress paymentMethod in
  fst (checkout w) = Err "Invalid product data in cart"
  /\ (forall r, In r (issued_by checkout w) -> is_session_call r = true)
  /\ raised_by checkout w = [toast_error "Invalid product data in cart"]
  /\ cartProvider (snd (checkout w)) = cartProvider w
  /\ cart_key (localStorage (snd (checkout w))) = cart_key (localStorage w)
  /\ isProcessing (snd (checkout w)) = false.
Proof.
  intros server now shippingAddress paymentMethod
    [s a [its sy il base timer] p evs] Hrefresh Hits Hbad checkout.
  simpl in Hits, Hbad.
  assert (Hlines : orderItems its = Err "Invalid product data in cart").
  { exact (orderItems_invalid its Hbad). }
  unfold checkout_refresh, checkout_prelude in Hrefresh. run_app_in Hrefresh.
  assert (Hrun : exists evs' s' a',
    checkout (mkWorld s a (mkCartProvider its sy il base timer) p evs)
    = (Err "Invalid product data in cart",
       mkWorld s' a' (mkCartProvider its sy il base timer) false
         (evs ++ evs')%list)
    /\ (forall r, In r (requests evs') -> is_session_call r = true)
    /\ toasts evs' = [toast_error "Invalid product data in cart"]
    /\ cart_key s' = cart_key s).
  { unfold checkout, processCheckout. run_app.
    match goal with
    | |- context [refreshToken server now ?w0] =>
        destruct (refreshToken_frame server now w0)
          as (evsR & He & Hsess & Hquiet & Hcart & Hck & _ & _);
        destruct (refreshToken server now w0) as [b [s1 a1 c1 p1 evs1]]
    end.
    simpl in He, Hcart, Hck, Hrefresh. subst evs1 c1 b. run_app.
    destruct its as [|item rest]; [contradiction|].
    cbn [List.length Nat.eqb]. rewrite Hlines. run_app.
    change (is_auth_failure "Invalid product data in cart") with false.
    change (nonempty "Invalid product data in cart") with true.
    run_app.
    eexists _, _, _. split; [rewrite <- ?app_assoc; reflexivity|].
    rewrite ?requests_app, ?toasts_app, Hquiet. simpl.
    rewrite ?app_nil_r. repeat split; assumption. }
  destruct Hrun as (evs' & s' & a' & Hrun & Hcalls & Htoasts & Hkey).
  assert (Hevs : events (snd (checkout
      (mkWorld s a (mkCartProvider its sy il base timer) p evs)))
      = (evs ++ evs')%list) by now rewrite Hrun.
  destruct (issued_by_events checkout _ evs' Hevs) as [Hissued Hraised].
  rewrite Hissued, Hraised, Hrun. simpl.
  repeat split; assumption.
Qed.

Lemma checkout_invalid_item_witness :
  let w := signed_in [mkCartItem shirt 2; mkCartItem ghost 1] [] 0 in
  fst (processCheckout order_taker 5000 home cod w)
  = Err "Invalid product data in cart"
  /\ issued_by (processCheckout order_taker 5000 home cod) w
     = [authService_getUserProfile].
Proof.
  intros w.
  assert (Hits : items (cartProvider w) <> []) by discriminate.
  assert (Hbad : Exists (fun item => pid item = "") (items (cartProvider w)))
    by (right; left; reflexivity).
  destruct (checkout_invalid_item order_taker 5000 home cod w
              eq_refl Hits Hbad)
    as (Hout & _).
  split; [exact Hout | reflexivity].
Defined.

End OrderFacts.
(** ** Request headers and session start *)

Section StartupFacts.

(** X25. Without authentication the headers are the content type alone,
    and storage is not consulted. With authentication, building the
    headers fails exactly when the stored credentials do not parse;
    otherwise the content type comes first, and an [Authorization] header
    is present exactly when a non-empty access token is stored, its value
    being [Bearer] followed by that token. *)
Theorem getHeaders_authorization : forall s,
  getHeaders false s = Ok [("Content-Type", "application/json")]
  /\ match getHeaders true s with
     | Ok headers =>
         authTokens_key s <> Some tokens_garbage
         /\ hd_error headers = Some ("Content-Type", "application/json")
         /\ forall value,
              In ("Authorization", value) headers <->
              exists access refresh,
                authTokens_key s = Some (tokens_json (Some access) refresh)
                /\ access <> ""
                /\ value = "Bearer " ++ access
     | Err _ => authTokens_key s = Some tokens_garbage
     end.
Proof.
  intros [ck cm cc at' uk]. split; [reflexivity|].
  unfold getHeaders, getToken, truthy, nonempty. simpl authTokens_key.
  destruct at' as [[|[a|] r]|]; simpl; try reflexivity.
  - destruct (a =? "")%string eqn:Ha; simpl.
    + apply String.eqb_eq in Ha. subst a.
      split; [discriminate|]. split; [reflexivity|].
      intros value. split.
      * intros [H|[]]. discriminate H.
      * intros (access & refresh & Heq & Hne & _). congruence.
    + rewrite Ha. simpl. apply String.eqb_neq in Ha.
      split; [discriminate|]. split; [reflexivity|].
      intros value. split.
      * intros [H|[H|[]]]; [discriminate H|].
        exists a, r. split; [reflexivity|]. split; [assumption|].
        congruence.
      * intros (access & refresh & Heq & _ & ->).
        right. left. congruence.
  - split; [discriminate|]. split; [reflexivity|].
    intros value. split.
    + intros [H|[]]. discriminate H.
    + intros (access & refresh & Heq & _). discriminate Heq.
  - split; [discriminate|]. split; [reflexivity|].
    intros value. split.
    + intros [H|[]]. discriminate H.
    + intros (access & refresh & Heq & _). discriminate Heq.
Qed.

(** X26. A call that needs no authentication goes to the network whatever
    storage holds. An authenticated call reads the stored credentials
    first: when they do not parse it rejects at once, with nothing sent and
    nothing changed; in every other case it sends its request and settles
    as the response does. *)
Theorem apiRequest_reads_credentials_first : forall server r w,
  apiRequest_with_headers false server r w = apiRequest server r w
  /\ match authTokens_key (localStorage w) with
     | Some tokens_garbage =>
         exists message,
           apiRequest_with_headers true server r w = (Err message, w)
     | _ => apiRequest_with_headers true server r w = apiRequest server r w
     end.
Proof.
  intros server r [[ck cm cc at' uk] a c p evs]. split; [reflexivity|].
  unfold apiRequest_with_headers, getHeaders, getToken, truthy, nonempty,
    bind, gets.
  cbn [localStorage authTokens_key].
  destruct at' as [[|[t|] rf]|]; try reflexivity.
  - eexists. reflexivity.
  - destruct (t =? "")%string eqn:Ht; cbn [negb]; [reflexivity|].
    rewrite Ht. reflexivity.
Qed.



(** X28. Stored credentials that do not parse survive startup: [loadUser]
    swallows the error, sends nothing and changes nothing, so the record
    stays in storage and every authenticated call made afterwards rejects
    before it is sent. *)
Theorem corrupt_credentials_survive_startup : forall server w r,
  authTokens_key (localStorage w) = Some tokens_garbage ->
  loadUser server w = ({| isLoading := false; isInitialized := true |}, w)
  /\ exists message,
       apiRequest_with_headers true server r (snd (loadUser server w))
       = (Err message, w).
Proof.
  intros server [[ck cm cc at' uk] a c p evs] r Htokens.
  simpl in Htokens. subst at'.
  split; [reflexivity|].
  eexists. reflexivity.
Qed.

Lemma corrupt_credentials_survive_startup_witness :
  let w := startup (Some tokens_garbage) (Some customer) in
  snd (loadUser accepting w) = w
  /\ exists message,
       apiRequest_with_headers true accepting ordersService_getUserCart w
       = (Err message, w).
Proof.
  intros w.
  destruct (corrupt_credentials_survive_startup accepting w
              ordersService_getUserCart eq_refl) as [Hrun Hcall].
  split; [now rewrite Hrun | exact Hcall].
Defined.

Lemma nonempty_true : forall s, nonempty s = true -> s <> "".
Proof. intros s H ->. discriminate H. Qed.

(** X29. Whatever the backend answers at startup, if somebody is signed in
    when [loadUser] is over, a non-empty access token is in storage. *)
Theorem loadUser_signed_in_has_token : forall server w,
  at_mount w ->
  isAuthenticated (snd (loadUser server w)) = true ->
  exists access refresh,
    authTokens_key (localStorage (snd (loadUser server w)))
    = Some (tokens_json (Some access) refresh)
    /\ access <> "".
Proof.
  intros server [[ck cm cc at' uk] [u last rt] c p evs] Hmount.
  unfold at_mount in Hmount. simpl in Hmount.
  injection Hmount as -> -> ->.
  unfold loadUser, scheduleTokenRefresh, attemptTokenRefresh,
    read_authTokens, authService_refreshToken_call, apiRequest, fetch,
    clearAuthState.
  destruct at' as [[|a r]|]; run_app; try discriminate.
  unfold truthy.
  repeat (break_match; run_app; next_index); try discriminate;
    rewrite ?requests_app, ?length_app in *;
    cbn [requests flat_map app List.length] in *;
    rewrite ?Nat.add_1_r in *;
    try congruence;
    intros _; eexists _, _; (split; [reflexivity|]);
    eauto using nonempty_true.
Qed.

Lemma loadUser_signed_in_has_token_witness :
  let w := startup (Some (tokens_json (Some "access-1") None))
             (Some customer) in
  exists access refresh,
    authTokens_key (localStorage (snd (loadUser accepting w)))
    = Some (tokens_json (Some access) refresh)
    /\ access <> "".
Proof.
  intros w.
  apply (loadUser_signed_in_has_token accepting w); reflexivity.
Defined.

End StartupFacts.
